(** * Local IP agent extension: the pending-change tables

    A shallow embedding of [neutron/agent/l2/extensions/local_ip.py].

    The extension object keeps [local_ip_updates], a dict with the two keys
    ['added'] and ['deleted'], each bound to a [collections.defaultdict(dict)]
    from port id to a dict from local IP id to the association object.
    Methods are embedded in a state-and-exception monad over the extension
    object together with a chronological trace of the calls it makes to its
    collaborators (logger, RPC registry, connection, callback registry).
    Dicts are finite maps, so the insertion order of their keys is not
    represented; [handle_port], which only logs what the drain returns in
    that order, and [consume_api] are left out. *)

From stdpp Require Import gmap strings list fin_maps.

(** ** Constants imported by the module

    [events.CREATED], [events.UPDATED], [events.DELETED],
    [resources.LOCAL_IP_ASSOCIATION], [resources.PORT],
    [lib_events.AFTER_UPDATE], [ovs_constants.EXTENSION_DRIVER_TYPE] and the
    function [resources_rpc.resource_type_versioned_topic] live in other
    modules; the embedding is parametric in them. *)

Class Constants := {
  CREATED : string;
  UPDATED : string;
  DELETED : string;
  LOCAL_IP_ASSOCIATION : string;
  PORT : string;
  AFTER_UPDATE : string;
  EXTENSION_DRIVER_TYPE : string;
  resource_type_versioned_topic : string → string;
}.

(** The values the string constants have in neutron and neutron-lib, used to
    run the model on concrete inputs; the topic function stands in for the
    real one, which also appends the version of the resource class. *)
Definition neutron_constants : Constants := {|
  CREATED := "created";
  UPDATED := "updated";
  DELETED := "deleted";
  LOCAL_IP_ASSOCIATION := "LocalIPAssociation";
  PORT := "Port";
  AFTER_UPDATE := "after_update";
  EXTENSION_DRIVER_TYPE := "ovs";
  resource_type_versioned_topic := fun r => String.append "neutron-vo-" r;
|}.

(** ** Data *)

(** The association object: only the attributes the extension reads. *)
Record LocalIPAssociation := {
  fixed_port_id : string;
  local_ip_id : string;
  local_ip : string;
}.

Global Instance LocalIPAssociation_eq_dec : EqDecision LocalIPAssociation.
Proof. solve_decision. Defined.

(** A plain [dict] from local IP id to association, and a
    [defaultdict(dict)] from port id to such dicts. *)
Abbreviation assoc_dict := (gmap string LocalIPAssociation).
Abbreviation port_table := (gmap string (gmap string LocalIPAssociation)).

(** A dict with exactly the keys ['added'] and ['deleted']. *)
Record updates (V : Type) := {
  added : V;
  deleted : V;
}.
Arguments added {V} _.
Arguments deleted {V} _.

Definition set_added {V} (u : updates V) (v : V) : updates V :=
  {| added := v; deleted := deleted u |}.
Definition set_deleted {V} (u : updates V) (v : V) : updates V :=
  {| added := added u; deleted := v |}.

(** The request context is opaque to the extension. *)
Inductive RequestContext :=
  | AdminContextWithoutSession
  | Context_ (request_id : string).

Record DBEventPayload := {
  payload_context : RequestContext;
  changed_fields : list string;
  resource_id : string;
  states : list (option string);
}.

Inductive endpoint := ResourcesPushRpcCallback.
Inductive ResourcesPullRpcApi := ResourcesPullRpcApi_new.

(** Calls to collaborators, in the order they are made. *)
Inductive effect :=
  | LogError (driver_type : string)
  | LogWarning (resource_type : string)
  | LogInfo (local_ip_associations : list LocalIPAssociation)
            (event_type : string)
  | RegistryRegister (resource_type : string)
  | CreateConsumer (connection topic : string)
                   (endpoints : list endpoint) (fanout : bool)
  | BulkPull (context : RequestContext) (resource_type : string)
  | Publish (resource event : string) (payload : DBEventPayload).

Inductive exn :=
  | SystemExit (code : Z)
  | AttributeError (name : string)
  | KeyError (key : string).

Inductive result (A : Type) :=
  | Ok (a : A)
  | Raise (e : exn).
Arguments Ok {A} _.
Arguments Raise {A} _.

(** The extension object ([self]) with what it can observe of the world:
    [server_associations] is the list the server answers to [bulk_pull]. *)
Record state := {
  resource_rpc : option ResourcesPullRpcApi;
  local_ip_updates : option (updates port_table);
  server_associations : list LocalIPAssociation;
  trace : list effect;
}.

(** ** The monad *)

Definition M (A : Type) : Type := state → result A * state.

Definition ret {A} (a : A) : M A := fun s => (Ok a, s).

Definition bind {A B} (m : M A) (f : A → M B) : M B := fun s =>
  match m s with
  | (Ok a, s') => f a s'
  | (Raise e, s') => (Raise e, s')
  end.

Definition raise {A} (e : exn) : M A := fun s => (Raise e, s).

Declare Scope py_scope.
Delimit Scope py_scope with py.
Notation "'let*' x ':=' m 'in' k" := (bind m (fun x => k))
  (at level 10, x name, m at level 100, k at level 200) : py_scope.
Notation "m >> k" := (bind m (fun _ => k))
  (at level 90, right associativity) : py_scope.
Open Scope py_scope.

Definition emit (e : effect) : M unit := fun s =>
  (Ok tt, {| resource_rpc := resource_rpc s;
             local_ip_updates := local_ip_updates s;
             server_associations := server_associations s;
             trace := trace s ++ [e] |}).

(** [self.resource_rpc = v] *)
Definition set_resource_rpc (v : ResourcesPullRpcApi) : M unit := fun s =>
  (Ok tt, {| resource_rpc := Some v;
             local_ip_updates := local_ip_updates s;
             server_associations := server_associations s;
             trace := trace s |}).

(** [self.local_ip_updates = v] *)
Definition set_local_ip_updates (v : updates port_table) : M unit := fun s =>
  (Ok tt, {| resource_rpc := resource_rpc s;
             local_ip_updates := Some v;
             server_associations := server_associations s;
             trace := trace s |}).

(** Reading an attribute that was never assigned raises. *)
Definition get_resource_rpc : M ResourcesPullRpcApi := fun s =>
  match resource_rpc s with
  | Some v => (Ok v, s)
  | None => (Raise (AttributeError "resource_rpc"), s)
  end.

Definition get_local_ip_updates : M (updates port_table) := fun s =>
  match local_ip_updates s with
  | Some v => (Ok v, s)
  | None => (Raise (AttributeError "local_ip_updates"), s)
  end.

(** In-place mutation of the object bound to [self.local_ip_updates]. *)
Definition mutate_local_ip_updates
    (f : updates port_table → updates port_table) : M unit :=
  let* u := get_local_ip_updates in set_local_ip_updates (f u).

(** [for x in l: body(x)] *)
Fixpoint for_each {A} (l : list A) (body : A → M unit) : M unit :=
  match l with
  | [] => ret tt
  | x :: l' => body x >> for_each l' body
  end.

(** ** Dict primitives *)

(** [d.pop(key, default)] on the outer table: the binding is removed and its
    value returned; a missing key yields the default and changes nothing. *)
Definition dict_pop {V} (d : gmap string V) (key : string) (default_ : V)
    : V * gmap string V :=
  (default default_ (d !! key), delete key d).

(** [t[key]] on a [defaultdict(dict)]: a missing key is first bound to a new
    empty dict, which is returned. *)
Definition defaultdict_getitem (t : port_table) (key : string)
    : assoc_dict * port_table :=
  match t !! key with
  | Some d => (d, t)
  | None => (∅, <[key := ∅]> t)
  end.

(** [t[port_id][lip_id] = assoc]; the inner dict is the object held by the
    table, so the table sees the assignment. *)
Definition table_setitem (t : port_table) (port_id lip_id : string)
    (assoc : LocalIPAssociation) : port_table :=
  let '(d, t') := defaultdict_getitem t port_id in
  <[port_id := <[lip_id := assoc]> d]> t'.

(** [t[port_id].pop(lip_id, None)] *)
Definition table_popitem (t : port_table) (port_id lip_id : string)
    : port_table :=
  let '(d, t') := defaultdict_getitem t port_id in
  <[port_id := delete lip_id d]> t'.

(** The mapping a reader sees for a port: a missing key reads as empty. *)
Definition port_entries (t : port_table) (port_id : string) : assoc_dict :=
  default ∅ (t !! port_id).

(** ** Vocabulary for statements *)

(** The state [s] after the calls [tr] were made. *)
Definition add_trace (s : state) (tr : list effect) : state :=
  {| resource_rpc := resource_rpc s;
     local_ip_updates := local_ip_updates s;
     server_associations := server_associations s;
     trace := trace s ++ tr |}.

(** The state [s] with [self.local_ip_updates] bound to [u]. *)
Definition with_updates (s : state) (u : updates port_table) : state :=
  {| resource_rpc := resource_rpc s;
     local_ip_updates := Some u;
     server_associations := server_associations s;
     trace := trace s |}.

Definition registers_consumer (e : effect) : bool :=
  match e with
  | RegistryRegister _ | CreateConsumer _ _ _ _ => true
  | _ => false
  end.

Definition is_bulk_pull (e : effect) : bool :=
  match e with BulkPull _ _ => true | _ => false end.

Definition is_publish (e : effect) : bool :=
  match e with Publish _ _ _ => true | _ => false end.



(** ** The extension *)

Section Model.
Context `{Constants}.

Definition SUPPORTED_RESOURCE_TYPES : list string := [LOCAL_IP_ASSOCIATION].

Definition _register_rpc_consumers (connection : string) : M unit :=
  let endpoints := [ResourcesPushRpcCallback] in
  for_each SUPPORTED_RESOURCE_TYPES (fun resource_type =>
    emit (RegistryRegister resource_type) >>
    let topic := resource_type_versioned_topic resource_type in
    emit (CreateConsumer connection topic endpoints true)).

Definition bulk_pull (context : RequestContext) (resource_type : string)
    : M (list LocalIPAssociation) :=
  let* _ := get_resource_rpc in
  emit (BulkPull context resource_type) >>
  fun s => (Ok (server_associations s), s).

Definition _pull_all_local_ip_associations : M unit :=
  let context := AdminContextWithoutSession in
  let* assoc_list := bulk_pull context LOCAL_IP_ASSOCIATION in
  for_each assoc_list (fun assoc =>
    let port_id := fixed_port_id assoc in
    let lip_id := local_ip_id assoc in
    mutate_local_ip_updates (fun u =>
      set_added u (table_setitem (added u) port_id lip_id assoc))).

Definition initialize (connection driver_type : string) : M unit :=
  (if bool_decide (driver_type ≠ EXTENSION_DRIVER_TYPE) then
     emit (LogError driver_type) >>
     raise (SystemExit 1)
   else ret tt) >>
  set_resource_rpc ResourcesPullRpcApi_new >>
  _register_rpc_consumers connection >>
  set_local_ip_updates {| added := ∅; deleted := ∅ |} >>
  _pull_all_local_ip_associations.

Definition _notify_port_updated (context : RequestContext) (port_id : string)
    : M unit :=
  let payload := {| payload_context := context;
                    changed_fields := ["local_ip"];
                    resource_id := port_id;
                    states := [None] |} in
  emit (Publish PORT AFTER_UPDATE payload).

Definition _handle_notification (context : RequestContext)
    (resource_type : string)
    (local_ip_associations : list LocalIPAssociation)
    (event_type : string) : M unit :=
  if bool_decide (resource_type ≠ LOCAL_IP_ASSOCIATION) then
    emit (LogWarning resource_type)
  else
    emit (LogInfo local_ip_associations event_type) >>
    for_each local_ip_associations (fun assoc =>
      let port_id := fixed_port_id assoc in
      let lip_id := local_ip_id assoc in
      (if bool_decide (event_type ∈ [CREATED; UPDATED]) then
         mutate_local_ip_updates (fun u =>
           set_added u (table_setitem (added u) port_id lip_id assoc))
       else if bool_decide (event_type = DELETED) then
         mutate_local_ip_updates (fun u =>
           set_deleted u (table_setitem (deleted u) port_id lip_id assoc)) >>
         mutate_local_ip_updates (fun u =>
           set_added u (table_popitem (added u) port_id lip_id))
       else ret tt) >>
      _notify_port_updated context port_id).

Definition _pop_local_ip_updates_for_port (port_id : string)
    : M (updates assoc_dict) :=
  let* u := get_local_ip_updates in
  let '(a, t) := dict_pop (added u) port_id ∅ in
  set_local_ip_updates (set_added u t) >>
  let* u := get_local_ip_updates in
  let '(d, t) := dict_pop (deleted u) port_id ∅ in
  set_local_ip_updates (set_deleted u t) >>
  ret {| added := a; deleted := d |}.

(** [port] is the port-details dict; only its ['port_id'] entry is read. *)
Definition port_getitem (port : gmap string string) (key : string)
    : M string :=
  match port !! key with
  | Some v => ret v
  | None => raise (KeyError key)
  end.

(** Both pops drop the value they return, so the default passed to
    [dict_pop] stands for [None]. *)
Definition delete_port (context : RequestContext) (port : gmap string string)
    : M unit :=
  let* u := get_local_ip_updates in
  let* port_id := port_getitem port "port_id" in
  set_local_ip_updates (set_added u (dict_pop (added u) port_id ∅).2) >>
  let* u := get_local_ip_updates in
  let* port_id := port_getitem port "port_id" in
  set_local_ip_updates (set_deleted u (dict_pop (deleted u) port_id ∅).2).

(** The payload [_notify_port_updated] publishes for a port. *)
Definition port_updated (context : RequestContext) (port_id : string)
    : effect :=
  Publish PORT AFTER_UPDATE
    {| payload_context := context; changed_fields := ["local_ip"];
       resource_id := port_id; states := [None] |}.

(** What one record of a notification of kind [event_type] does to the
    tables (lines 97-101 of the handler, as one function). *)
Definition record_effect (event_type : string) (assoc : LocalIPAssociation)
    (u : updates port_table) : updates port_table :=
  let port_id := fixed_port_id assoc in
  let lip_id := local_ip_id assoc in
  if bool_decide (event_type ∈ [CREATED; UPDATED]) then
    set_added u (table_setitem (added u) port_id lip_id assoc)
  else if bool_decide (event_type = DELETED) then
    {| added := table_popitem (added u) port_id lip_id;
       deleted := table_setitem (deleted u) port_id lip_id assoc |}
  else u.

(** One call of the registered callback, and a sequence of such calls in
    delivery order. *)
Record notification := {
  n_context : RequestContext;
  n_resource_type : string;
  n_associations : list LocalIPAssociation;
  n_event_type : string;
}.

Definition deliver (ns : list notification) : M unit :=
  for_each ns (fun n =>
    _handle_notification (n_context n) (n_resource_type n)
                         (n_associations n) (n_event_type n)).

(** What a whole notification does to the tables. *)
Definition notification_effect (n : notification) (u : updates port_table)
    : updates port_table :=
  if bool_decide (n_resource_type n ≠ LOCAL_IP_ASSOCIATION) then u
  else foldl (λ u a, record_effect (n_event_type n) a u) u (n_associations n).

(** A single-record notification of the supported type for the event
    [(event_type, assoc)]. *)
Definition event_notification (context : RequestContext)
    (ev : string * LocalIPAssociation) : notification :=
  {| n_context := context; n_resource_type := LOCAL_IP_ASSOCIATION;
     n_associations := [ev.2]; n_event_type := ev.1 |}.

(** The local IP id [lip_id] is pending as added (resp. deleted) for
    [port_id]. *)
Definition in_added (u : updates port_table) (port_id lip_id : string) : Prop :=
  is_Some (port_entries (added u) port_id !! lip_id).
Definition in_deleted (u : updates port_table) (port_id lip_id : string)
    : Prop :=
  is_Some (port_entries (deleted u) port_id !! lip_id).

(** The reading of the tables after a sequence of events for one
    (port, local IP) pair under which the id is never pending on both sides
    and is pending as deleted exactly when the last event was [DELETED]. *)
Definition exclusive_latest_wins (context : RequestContext)
    (port_id lip_id : string) (evs : list (string * LocalIPAssociation))
    (s : state) : Prop :=
  ∀ s' u' last_ev,
    deliver (event_notification context <$> evs) s = (Ok tt, s') →
    local_ip_updates s' = Some u' →
    last evs = Some last_ev →
    ¬ (in_added u' port_id lip_id ∧ in_deleted u' port_id lip_id)
    ∧ (in_deleted u' port_id lip_id ↔ last_ev.1 = DELETED).

(** An event of one of the three kinds for the pair
    [(port_id, lip_id)]. *)
Definition pair_event (port_id lip_id : string)
    (ev : string * LocalIPAssociation) : Prop :=
  ev.1 ∈ [CREATED; UPDATED; DELETED]
  ∧ fixed_port_id ev.2 = port_id ∧ local_ip_id ev.2 = lip_id.

(** What a sequence of events does to the tables. *)
Definition events_effect (evs : list (string * LocalIPAssociation))
    (u : updates port_table) : updates port_table :=
  foldl (λ u ev, record_effect ev.1 ev.2 u) u evs.

(** What one pulled association does to the tables (line 63), and what a
    whole pulled list does. *)
Definition seed_effect (assoc : LocalIPAssociation) (u : updates port_table)
    : updates port_table :=
  set_added u (table_setitem (added u) (fixed_port_id assoc)
                             (local_ip_id assoc) assoc).

Definition seeded (l : list LocalIPAssociation) (u : updates port_table)
    : updates port_table :=
  foldl (λ u a, seed_effect a u) u l.

(** The pair that identifies an association. *)
Definition assoc_key (a : LocalIPAssociation) : string * string :=
  (fixed_port_id a, local_ip_id a).

Definition empty_updates : updates port_table := {| added := ∅; deleted := ∅ |}.

(** Orderings of the calls in a trace: every consumer registration comes
    after some bulk pull, and every bulk pull comes after some consumer
    registration. *)
Definition seed_before_subscribe (tr : list effect) : Prop :=
  ∀ i e, tr !! i = Some e → registers_consumer e = true →
    ∃ j e', j < i ∧ tr !! j = Some e' ∧ is_bulk_pull e' = true.

Definition subscribe_before_seed (tr : list effect) : Prop :=
  ∀ j e', tr !! j = Some e' → is_bulk_pull e' = true →
    ∃ i e, i < j ∧ tr !! i = Some e ∧ registers_consumer e = true.

(** ** Further vocabulary *)

(** Every association of a table is filed under its own port and local IP
    ids. *)
Definition well_filed_table (t : port_table) : Prop :=
  ∀ p d l a, t !! p = Some d → d !! l = Some a →
    fixed_port_id a = p ∧ local_ip_id a = l.

Definition well_filed (u : updates port_table) : Prop :=
  well_filed_table (added u) ∧ well_filed_table (deleted u).

(** The tables without the key [port_id]. *)
Definition drop_port (port_id : string) (u : updates port_table)
    : updates port_table :=
  {| added := delete port_id (added u); deleted := delete port_id (deleted u) |}.

(** The last association of a list with the given port and local IP ids. *)
Definition latest_for (port_id lip_id : string) (l : list LocalIPAssociation)
    : option LocalIPAssociation :=
  last (filter (λ a, assoc_key a = (port_id, lip_id)) l).

(** The ports named by the records of a notification. *)
Definition notification_ports (n : notification) : list string :=
  fixed_port_id <$> n_associations n.

(** The calls a notification causes on an object that has its tables. *)
Definition notification_calls (n : notification) : list effect :=
  if bool_decide (n_resource_type n ≠ LOCAL_IP_ASSOCIATION) then
    [LogWarning (n_resource_type n)]
  else
    LogInfo (n_associations n) (n_event_type n)
      :: (port_updated (n_context n) ∘ fixed_port_id <$> n_associations n).

(** What a sequence of notifications does to the tables. *)
Definition tables_after (ns : list notification) (u : updates port_table)
    : updates port_table :=
  foldl (λ u n, notification_effect n u) u ns.

(** The notification is of the supported type and of one of the three
    event kinds. *)
Definition handled (n : notification) : Prop :=
  n_resource_type n = LOCAL_IP_ASSOCIATION
  ∧ (n_event_type n ∈ [CREATED; UPDATED] ∨ n_event_type n = DELETED).

Global Instance handled_dec n : Decision (handled n).
Proof. unfold handled. apply _. Defined.

(** One call of a method of the extension by the agent, and a sequence of
    calls run until the first exception. *)
Inductive call :=
  | Initialize (connection driver_type : string)
  | Notify (n : notification)
  | PullAll
  | PopUpdates (port_id : string)
  | DeletePort (context : RequestContext) (port : gmap string string).

Definition run_call (c : call) : M unit :=
  match c with
  | Initialize connection driver_type => initialize connection driver_type
  | Notify n =>
      _handle_notification (n_context n) (n_resource_type n)
                           (n_associations n) (n_event_type n)
  | PullAll => _pull_all_local_ip_associations
  | PopUpdates port_id => _pop_local_ip_updates_for_port port_id >> ret tt
  | DeletePort context port => delete_port context port
  end.

Definition run_calls (cs : list call) : M unit := for_each cs run_call.

(** The tables of the object, when it has them, are well filed. *)
Definition tables_well_filed (s : state) : Prop :=
  ∀ u, local_ip_updates s = Some u → well_filed u.

End Model.

(** ** Concrete inputs

    Run under [neutron_constants]: port ["A"] with local IPs ["1"] and
    ["2"], port ["B"] with local IP ["5"]. *)

Definition assoc_A1 : LocalIPAssociation :=
  {| fixed_port_id := "A"; local_ip_id := "1"; local_ip := "X" |}.
Definition assoc_A2 : LocalIPAssociation :=
  {| fixed_port_id := "A"; local_ip_id := "2"; local_ip := "Y" |}.
Definition assoc_B5 : LocalIPAssociation :=
  {| fixed_port_id := "B"; local_ip_id := "5"; local_ip := "Z" |}.

(** A new extension object, before [initialize]; the server knows three
    associations. *)
Definition fresh_state : state :=
  {| resource_rpc := None;
     local_ip_updates := None;
     server_associations := [assoc_A1; assoc_A2; assoc_B5];
     trace := [] |}.

(** An object with the pull API and empty tables. *)
Definition empty_state : state :=
  {| resource_rpc := Some ResourcesPullRpcApi_new;
     local_ip_updates := Some empty_updates;
     server_associations := [assoc_A1; assoc_A2; assoc_B5];
     trace := [] |}.

(** An object with pending changes on both ports. *)
Definition busy_updates : updates port_table :=
  {| added := {[ "A" := {[ "1" := assoc_A1 ]}; "B" := {[ "5" := assoc_B5 ]} ]};
     deleted := {[ "A" := {[ "2" := assoc_A2 ]} ]} |}.

Definition busy_state : state :=
  {| resource_rpc := Some ResourcesPullRpcApi_new;
     local_ip_updates := Some busy_updates;
     server_associations := [];
     trace := [] |}.

(** A new object whose server knows one association. *)
Definition single_state : state :=
  {| resource_rpc := None;
     local_ip_updates := None;
     server_associations := [assoc_A1];
     trace := [] |}.

Definition port_B : gmap string string :=
  {[ "port_id" := "B"; "device" := "tap0" ]}.

(** [DELETED] then [CREATED] for the pair (["A"], ["1"]). *)
Definition delete_then_create : list (string * LocalIPAssociation) :=
  [("deleted", assoc_A1); ("created", assoc_A1)].

(** [CREATED], [DELETED], [UPDATED] for the same pair. *)
Definition create_delete_update : list (string * LocalIPAssociation) :=
  [("created", assoc_A1); ("deleted", assoc_A1); ("updated", assoc_A1)].

Definition created_B5 : notification :=
  {| n_context := Context_ "req-1";
     n_resource_type := "LocalIPAssociation";
     n_associations := [assoc_B5];
     n_event_type := "created" |}.

(** A port dict that lacks the key ['port_id']. *)
Definition port_nameless : gmap string string := {[ "device" := "tap0" ]}.

(** A notification of another resource type, and one of an unknown event
    kind. *)
Definition port_deleted : notification :=
  {| n_context := Context_ "req-3";
     n_resource_type := "Port";
     n_associations := [assoc_A1];
     n_event_type := "deleted" |}.

Definition renamed_A1 : notification :=
  {| n_context := Context_ "req-4";
     n_resource_type := "LocalIPAssociation";
     n_associations := [assoc_A1];
     n_event_type := "renamed" |}.

(** A run of the extension: start, one notification, one drain, one port
    removal. *)
Definition sample_calls : list call :=
  [Initialize "conn" "ovs"; Notify created_B5; PopUpdates "A";
   DeletePort AdminContextWithoutSession port_B].

Section Proofs.
Context `{Constants}.

(** ** Basic facts about the monad and the trace *)

Lemma add_trace_nil s : add_trace s [] = s.
Proof. destruct s. unfold add_trace. simpl. by rewrite app_nil_r. Qed.

Lemma add_trace_app s tr1 tr2 :
  add_trace (add_trace s tr1) tr2 = add_trace s (tr1 ++ tr2).
Proof. unfold add_trace. simpl. by rewrite app_assoc. Qed.

Lemma bind_ok {A B} (m : M A) (f : A → M B) s a s' :
  m s = (Ok a, s') → bind m f s = f a s'.
Proof. intros Hm. unfold bind. by rewrite Hm. Qed.

Lemma emit_spec e s : emit e s = (Ok tt, add_trace s [e]).
Proof. reflexivity. Qed.

Lemma with_updates_id s u : local_ip_updates s = Some u → with_updates s u = s.
Proof. destruct s. simpl. intros ->. reflexivity. Qed.

Lemma mutate_spec f s u :
  local_ip_updates s = Some u →
  mutate_local_ip_updates f s = (Ok tt, with_updates s (f u)).
Proof.
  intros Hu. unfold mutate_local_ip_updates, bind, get_local_ip_updates.
  by rewrite Hu.
Qed.

(** A loop whose body only makes one call leaves the object alone. *)
Lemma for_each_emit {A} (l : list A) (body : A → M unit) (f : A → effect) :
  (∀ x s, body x s = (Ok tt, add_trace s [f x])) →
  ∀ s, for_each l body s = (Ok tt, add_trace s (f <$> l)).
Proof.
  intros Hbody. induction l as [|x l IH]; intros s; simpl.
  - by rewrite add_trace_nil.
  - unfold bind. rewrite Hbody, IH, add_trace_app. reflexivity.
Qed.

(** A loop whose body rewrites the tables and makes one call. *)
Lemma for_each_mutate {A} (l : list A) (body : A → M unit)
    (g : A → updates port_table → updates port_table) (f : A → effect) :
  (∀ x s u, local_ip_updates s = Some u →
            body x s = (Ok tt, add_trace (with_updates s (g x u)) [f x])) →
  ∀ s u, local_ip_updates s = Some u →
    for_each l body s
    = (Ok tt, add_trace (with_updates s (foldl (λ u x, g x u) u l)) (f <$> l)).
Proof.
  intros Hbody. induction l as [|x l IH]; intros s u Hu; simpl.
  - by rewrite add_trace_nil, with_updates_id.
  - unfold bind. rewrite (Hbody x s u Hu).
    rewrite (IH _ (g x u)) by reflexivity.
    unfold add_trace, with_updates. simpl. by rewrite <- app_assoc.
Qed.

(** ** Wrong driver at initialization *)

(** C10: called with a driver type other than
    [EXTENSION_DRIVER_TYPE], [initialize] logs one error and raises
    [SystemExit 1]; the attributes of the object are what they were (no store
    is created), and the calls made contain no consumer registration and no
    bulk pull. *)
Theorem initialize_wrong_driver_exits (connection driver_type : string)
    (s : state) :
  driver_type ≠ EXTENSION_DRIVER_TYPE →
  ∃ s', initialize connection driver_type s = (Raise (SystemExit 1), s')
    ∧ s' = add_trace s [LogError driver_type]
    ∧ resource_rpc s' = resource_rpc s
    ∧ local_ip_updates s' = local_ip_updates s
    ∧ ∀ e, e ∈ drop (length (trace s)) (trace s') →
           registers_consumer e = false ∧ is_bulk_pull e = false.
Proof.
  intros Hne. eexists. split.
  - unfold initialize, bind. rewrite bool_decide_eq_true_2 by done.
    rewrite emit_spec. reflexivity.
  - repeat split; simpl in *;
      rewrite drop_app_length in *;
      match goal with He : _ ∈ [_] |- _ =>
        apply list_elem_of_singleton in He; by subst end.
Qed.

(** ** Notifications that change no table *)

(** C7: a notification whose resource type is not
    [LOCAL_IP_ASSOCIATION] returns normally after one warning; the object,
    and so both tables, is unchanged and nothing is published, whatever the
    batch and the event type. *)
Theorem handle_notification_unsupported_type (context : RequestContext)
    (resource_type : string) (batch : list LocalIPAssociation)
    (event_type : string) (s : state) :
  resource_type ≠ LOCAL_IP_ASSOCIATION →
  ∃ s', _handle_notification context resource_type batch event_type s
        = (Ok tt, s')
    ∧ s' = add_trace s [LogWarning resource_type]
    ∧ local_ip_updates s' = local_ip_updates s
    ∧ ∀ e, e ∈ drop (length (trace s)) (trace s') → is_publish e = false.
Proof.
  intros Hne. eexists. split.
  - unfold _handle_notification. rewrite bool_decide_eq_true_2 by done.
    apply emit_spec.
  - repeat split; simpl. rewrite drop_app_length.
    intros e ->%list_elem_of_singleton. reflexivity.
Qed.

(** C8: in a notification of the supported resource type whose event
    type is none of [CREATED], [UPDATED], [DELETED], no record touches the
    tables (the object is not even read), and the port-changed payload is
    published once per record, for that record's port, in batch order. *)
Theorem handle_notification_unknown_event (context : RequestContext)
    (batch : list LocalIPAssociation) (event_type : string) (s : state) :
  event_type ∉ [CREATED; UPDATED] →
  event_type ≠ DELETED →
  ∃ s', _handle_notification context LOCAL_IP_ASSOCIATION batch event_type s
        = (Ok tt, s')
    ∧ local_ip_updates s' = local_ip_updates s
    ∧ trace s' = trace s ++ LogInfo batch event_type
                   :: (port_updated context ∘ fixed_port_id <$> batch).
Proof.
  intros Hcu Hd. eexists. split.
  - unfold _handle_notification. rewrite bool_decide_eq_false_2 by naive_solver.
    unfold bind at 1. rewrite emit_spec.
    rewrite (for_each_emit _ _ (port_updated context ∘ fixed_port_id)).
    + rewrite add_trace_app. reflexivity.
    + intros a s1. rewrite bool_decide_eq_false_2 by done.
      rewrite bool_decide_eq_false_2 by done. reflexivity.
  - split; reflexivity.
Qed.

(** ** The tables *)

Lemma table_setitem_eq (t : port_table) port_id lip_id assoc :
  table_setitem t port_id lip_id assoc
  = <[port_id := <[lip_id := assoc]> (port_entries t port_id)]> t.
Proof.
  unfold table_setitem, defaultdict_getitem, port_entries.
  destruct (t !! port_id); simpl; [done | by rewrite insert_insert_eq].
Qed.

Lemma table_popitem_eq (t : port_table) port_id lip_id :
  table_popitem t port_id lip_id
  = <[port_id := delete lip_id (port_entries t port_id)]> t.
Proof.
  unfold table_popitem, defaultdict_getitem, port_entries.
  destruct (t !! port_id); simpl; [done | by rewrite insert_insert_eq].
Qed.

Lemma port_entries_insert_eq (t : port_table) p d :
  port_entries (<[p := d]> t) p = d.
Proof. unfold port_entries. by rewrite lookup_insert_eq. Qed.

Lemma port_entries_insert_ne (t : port_table) p q d :
  p ≠ q → port_entries (<[p := d]> t) q = port_entries t q.
Proof. intros. unfold port_entries. by rewrite lookup_insert_ne. Qed.

Lemma port_entries_delete_eq (t : port_table) p :
  port_entries (delete p t) p = ∅.
Proof. unfold port_entries. by rewrite lookup_delete_eq. Qed.

Lemma port_entries_empty p : port_entries ∅ p = ∅.
Proof. reflexivity. Qed.

(** ** The reducer on an initialized object *)

Lemma record_body_spec context event_type assoc s u :
  local_ip_updates s = Some u →
  ((if bool_decide (event_type ∈ [CREATED; UPDATED]) then
      mutate_local_ip_updates (fun u =>
        set_added u (table_setitem (added u) (fixed_port_id assoc)
                                   (local_ip_id assoc) assoc))
    else if bool_decide (event_type = DELETED) then
      mutate_local_ip_updates (fun u =>
        set_deleted u (table_setitem (deleted u) (fixed_port_id assoc)
                                     (local_ip_id assoc) assoc)) >>
      mutate_local_ip_updates (fun u =>
        set_added u (table_popitem (added u) (fixed_port_id assoc)
                                   (local_ip_id assoc)))
    else ret tt) >>
   _notify_port_updated context (fixed_port_id assoc)) s
  = (Ok tt, add_trace (with_updates s (record_effect event_type assoc u))
                      [port_updated context (fixed_port_id assoc)]).
Proof.
  intros Hu. unfold record_effect, bind.
  case_bool_decide; [|case_bool_decide].
  - by rewrite (mutate_spec _ s u Hu).
  - rewrite (mutate_spec _ s u Hu).
    by erewrite mutate_spec by reflexivity.
  - simpl. by rewrite (with_updates_id s u Hu).
Qed.

Lemma handle_notification_spec context batch event_type s u :
  local_ip_updates s = Some u →
  _handle_notification context LOCAL_IP_ASSOCIATION batch event_type s
  = (Ok tt,
     add_trace
       (with_updates s (foldl (λ u a, record_effect event_type a u) u batch))
       (LogInfo batch event_type
          :: (port_updated context ∘ fixed_port_id <$> batch))).
Proof.
  intros Hu. unfold _handle_notification.
  rewrite bool_decide_eq_false_2 by naive_solver.
  unfold bind at 1. rewrite emit_spec.
  rewrite (for_each_mutate _ _ (record_effect event_type)
             (port_updated context ∘ fixed_port_id) (λ a s u, record_body_spec context event_type a s u)
             (add_trace s [LogInfo batch event_type]) u Hu).
  unfold add_trace, with_updates. simpl. by rewrite <- app_assoc.
Qed.

Lemma handle_notification_effect n s u :
  local_ip_updates s = Some u →
  ∃ tr, _handle_notification (n_context n) (n_resource_type n)
                             (n_associations n) (n_event_type n) s
        = (Ok tt, add_trace (with_updates s (notification_effect n u)) tr).
Proof.
  intros Hu. unfold notification_effect.
  destruct (decide (n_resource_type n = LOCAL_IP_ASSOCIATION)) as [->|Hne].
  - rewrite bool_decide_eq_false_2 by naive_solver.
    eexists. by apply handle_notification_spec.
  - rewrite bool_decide_eq_true_2 by done.
    exists [LogWarning (n_resource_type n)].
    unfold _handle_notification. rewrite bool_decide_eq_true_2 by done.
    by rewrite (with_updates_id s u Hu).
Qed.

(** Delivery to an initialized object never raises and leaves it
    initialized. *)
Lemma deliver_spec ns s u :
  local_ip_updates s = Some u →
  ∃ tr, deliver ns s
        = (Ok tt,
           add_trace (with_updates s (foldl (λ u n, notification_effect n u) u ns))
                     tr).
Proof.
  unfold deliver. revert s u. induction ns as [|n ns IH]; intros s u Hu; simpl.
  - exists []. by rewrite add_trace_nil, with_updates_id.
  - unfold bind. destruct (handle_notification_effect n s u Hu) as [tr1 ->].
    destruct (IH (add_trace (with_updates s (notification_effect n u)) tr1)
                 (notification_effect n u) eq_refl) as [tr2 ->].
    exists (tr1 ++ tr2). unfold add_trace, with_updates. simpl.
    by rewrite <- app_assoc.
Qed.

(** ** Draining and discarding a port *)

Lemma pop_spec port_id s u :
  local_ip_updates s = Some u →
  _pop_local_ip_updates_for_port port_id s
  = (Ok {| added := port_entries (added u) port_id;
           deleted := port_entries (deleted u) port_id |},
     with_updates s {| added := delete port_id (added u);
                       deleted := delete port_id (deleted u) |}).
Proof.
  intros Hu. unfold _pop_local_ip_updates_for_port, bind, get_local_ip_updates.
  rewrite Hu. reflexivity.
Qed.

Lemma delete_port_spec context port port_id s u :
  port !! "port_id" = Some port_id →
  local_ip_updates s = Some u →
  delete_port context port s
  = (Ok tt, with_updates s {| added := delete port_id (added u);
                              deleted := delete port_id (deleted u) |}).
Proof.
  intros Hp Hu. unfold delete_port, bind, get_local_ip_updates, port_getitem.
  rewrite Hu, Hp. reflexivity.
Qed.

(** C3: on an object whose tables are [u], draining a port returns
    normally with exactly the mappings [added[port_id]] and
    [deleted[port_id]] (empty when the port has no entry), removes the port
    key from both tables and makes no call; draining again at once returns
    two empty mappings and changes nothing. *)
Theorem pop_local_ip_updates_for_port_drains (port_id : string) (s : state)
    (u : updates port_table) :
  local_ip_updates s = Some u →
  ∃ r s' u',
    _pop_local_ip_updates_for_port port_id s = (Ok r, s')
    ∧ added r = port_entries (added u) port_id
    ∧ deleted r = port_entries (deleted u) port_id
    ∧ (added u !! port_id = None → added r = ∅)
    ∧ (deleted u !! port_id = None → deleted r = ∅)
    ∧ local_ip_updates s' = Some u'
    ∧ added u' = delete port_id (added u)
    ∧ deleted u' = delete port_id (deleted u)
    ∧ added u' !! port_id = None
    ∧ deleted u' !! port_id = None
    ∧ trace s' = trace s
    ∧ _pop_local_ip_updates_for_port port_id s'
      = (Ok {| added := ∅; deleted := ∅ |}, s').
Proof.
  intros Hu. do 3 eexists. split; [by apply pop_spec|].
  repeat split; simpl.
  - unfold port_entries. by intros ->.
  - unfold port_entries. by intros ->.
  - apply lookup_delete_eq.
  - apply lookup_delete_eq.
  - erewrite pop_spec by reflexivity. simpl.
    rewrite !port_entries_delete_eq, !delete_delete_eq. reflexivity.
Qed.

(** C9: for two different ports, draining [port_a] leaves the
    entries of [port_b] in both tables as they were, and what it returns does
    not depend on them: it is the same whatever [port_b] holds. *)
Theorem pop_leaves_other_port (port_a port_b : string) (s : state)
    (u : updates port_table) :
  port_a ≠ port_b →
  local_ip_updates s = Some u →
  ∃ r s' u',
    _pop_local_ip_updates_for_port port_a s = (Ok r, s')
    ∧ local_ip_updates s' = Some u'
    ∧ added u' !! port_b = added u !! port_b
    ∧ deleted u' !! port_b = deleted u !! port_b
    ∧ added r = port_entries (added u) port_a
    ∧ deleted r = port_entries (deleted u) port_a
    ∧ ∀ (b_added b_deleted : option assoc_dict),
        fst (_pop_local_ip_updates_for_port port_a
               (with_updates s
                  {| added := partial_alter (λ _, b_added) port_b (added u);
                     deleted :=
                       partial_alter (λ _, b_deleted) port_b (deleted u) |}))
        = Ok r.
Proof.
  intros Hne Hu. do 3 eexists. split; [by apply pop_spec|].
  repeat split.
  - by apply lookup_delete_ne.
  - by apply lookup_delete_ne.
  - intros b_added b_deleted. erewrite pop_spec by reflexivity. simpl.
    unfold port_entries. by rewrite !lookup_partial_alter_ne.
Qed.

(** C5: after any sequence of notifications delivered to an
    initialized object, [delete_port] for a port dict carrying [port_id]
    returns normally (whether or not the tables hold the port), leaves both
    tables without the port key, makes no call, and a drain of the port that
    follows returns two empty mappings. *)
Theorem delete_port_discards (ns : list notification)
    (context : RequestContext) (port : gmap string string) (port_id : string)
    (s : state) (u : updates port_table) :
  port !! "port_id" = Some port_id →
  local_ip_updates s = Some u →
  ∃ s1 s2 u2,
    deliver ns s = (Ok tt, s1)
    ∧ delete_port context port s1 = (Ok tt, s2)
    ∧ local_ip_updates s2 = Some u2
    ∧ added u2 !! port_id = None
    ∧ deleted u2 !! port_id = None
    ∧ trace s2 = trace s1
    ∧ _pop_local_ip_updates_for_port port_id s2
      = (Ok {| added := ∅; deleted := ∅ |}, s2).
Proof.
  intros Hp Hu. destruct (deliver_spec ns s u Hu) as [tr Hd].
  do 3 eexists. split; [exact Hd|].
  split; [by eapply delete_port_spec|].
  repeat split.
  - apply lookup_delete_eq.
  - apply lookup_delete_eq.
  - erewrite pop_spec by reflexivity. simpl.
    rewrite !port_entries_delete_eq, !delete_delete_eq. reflexivity.
Qed.

(** ** One record, one event *)

Lemma record_effect_upsert event_type assoc u :
  event_type ∈ [CREATED; UPDATED] →
  record_effect event_type assoc u
  = {| added := <[fixed_port_id assoc :=
                    <[local_ip_id assoc := assoc]>
                      (port_entries (added u) (fixed_port_id assoc))]> (added u);
       deleted := deleted u |}.
Proof.
  intros Hk. unfold record_effect. rewrite bool_decide_eq_true_2 by done.
  unfold set_added. by rewrite table_setitem_eq.
Qed.

Lemma record_effect_deleted assoc u :
  DELETED ∉ [CREATED; UPDATED] →
  record_effect DELETED assoc u
  = {| added := <[fixed_port_id assoc :=
                    delete (local_ip_id assoc)
                      (port_entries (added u) (fixed_port_id assoc))]> (added u);
       deleted := <[fixed_port_id assoc :=
                      <[local_ip_id assoc := assoc]>
                        (port_entries (deleted u) (fixed_port_id assoc))]>
                    (deleted u) |}.
Proof.
  intros Hk. unfold record_effect. rewrite bool_decide_eq_false_2 by done.
  rewrite bool_decide_eq_true_2 by done.
  by rewrite table_setitem_eq, table_popitem_eq.
Qed.

Lemma record_effect_deleted_twice assoc u :
  DELETED ∉ [CREATED; UPDATED] →
  record_effect DELETED assoc (record_effect DELETED assoc u)
  = record_effect DELETED assoc u.
Proof.
  intros Hk. rewrite !record_effect_deleted by done. simpl.
  rewrite !port_entries_insert_eq, !insert_insert_eq.
  by rewrite delete_delete_eq.
Qed.

(** C4: a [DELETED] notification carrying [assoc], on an object
    whose tables are [u], returns normally; afterwards
    [deleted[port][lip]] is [assoc] and [lip] is not in [added[port]]. The
    [added] entry of the port is its old mapping without [lip] (the same
    mapping when [lip] was not there; the lookup [added[port]] binds a port
    key that was missing to an empty dict), other ports are untouched in both
    tables, and delivering the same notification again leaves the tables as
    they are. *)
Theorem deleted_record_marks_and_evicts (context : RequestContext)
    (assoc : LocalIPAssociation) (s : state) (u : updates port_table) :
  DELETED ∉ [CREATED; UPDATED] →
  local_ip_updates s = Some u →
  ∃ s' u',
    _handle_notification context LOCAL_IP_ASSOCIATION [assoc] DELETED s
    = (Ok tt, s')
    ∧ local_ip_updates s' = Some u'
    ∧ deleted u'
      = <[fixed_port_id assoc :=
            <[local_ip_id assoc := assoc]>
              (port_entries (deleted u) (fixed_port_id assoc))]> (deleted u)
    ∧ added u'
      = <[fixed_port_id assoc :=
            delete (local_ip_id assoc)
              (port_entries (added u) (fixed_port_id assoc))]> (added u)
    ∧ port_entries (deleted u') (fixed_port_id assoc) !! local_ip_id assoc
      = Some assoc
    ∧ port_entries (added u') (fixed_port_id assoc) !! local_ip_id assoc = None
    ∧ (port_entries (added u) (fixed_port_id assoc) !! local_ip_id assoc = None →
       port_entries (added u') (fixed_port_id assoc)
       = port_entries (added u) (fixed_port_id assoc))
    ∧ (∀ q, q ≠ fixed_port_id assoc →
         added u' !! q = added u !! q ∧ deleted u' !! q = deleted u !! q)
    ∧ ∃ s'',
        _handle_notification context LOCAL_IP_ASSOCIATION [assoc] DELETED s'
        = (Ok tt, s'')
        ∧ local_ip_updates s'' = Some u'.
Proof.
  intros Hk Hu. do 2 eexists.
  split; [by apply handle_notification_spec|].
  split; [reflexivity|]. simpl. rewrite record_effect_deleted by done. simpl.
  split; [reflexivity|]. split; [reflexivity|].
  rewrite !port_entries_insert_eq.
  split; [apply lookup_insert_eq|]. split; [apply lookup_delete_eq|].
  split; [apply delete_id|].
  split.
  - intros q Hq. by rewrite !lookup_insert_ne.
  - eexists. split; [by apply handle_notification_spec|].
    simpl. rewrite <- record_effect_deleted by done.
    by rewrite record_effect_deleted_twice.
Qed.

(** ** Sequences of events for one (port, local IP) pair *)

Lemma foldl_pointwise {A B} (f g : A → B → A) (l : list B) (a : A) :
  (∀ a b, f a b = g a b) → foldl f a l = foldl g a l.
Proof.
  intros Hfg. revert a. induction l as [|b l IH]; intros a; simpl; [done|].
  by rewrite Hfg, IH.
Qed.

Lemma notification_effect_event context ev u :
  notification_effect (event_notification context ev) u
  = record_effect ev.1 ev.2 u.
Proof.
  unfold notification_effect. simpl.
  by rewrite bool_decide_eq_false_2 by naive_solver.
Qed.

Lemma deliver_events context evs s u :
  local_ip_updates s = Some u →
  ∃ tr, deliver (event_notification context <$> evs) s
        = (Ok tt, add_trace (with_updates s (events_effect evs u)) tr).
Proof.
  intros Hu. destruct (deliver_spec (event_notification context <$> evs) s u Hu)
    as [tr ->].
  exists tr. rewrite foldl_fmap. unfold events_effect. do 3 f_equal.
  apply foldl_pointwise. intros v ev. apply notification_effect_event.
Qed.

Section OnePair.
Variables port_id lip_id : string.
Hypothesis DELETED_fresh : DELETED ∉ [CREATED; UPDATED].

Lemma pair_event_kind ev :
  pair_event port_id lip_id ev →
  ev.1 ∈ [CREATED; UPDATED] ∧ ev.1 ≠ DELETED ∨ ev.1 = DELETED.
Proof.
  intros [Hk _]. destruct (decide (ev.1 = DELETED)) as [|Hne]; [by right|left].
  split; [|done]. rewrite !elem_of_cons in Hk. rewrite !elem_of_cons.
  destruct Hk as [?|[?|[?|?%elem_of_nil]]]; auto; done.
Qed.

Lemma upsert_step ev u :
  pair_event port_id lip_id ev → ev.1 ∈ [CREATED; UPDATED] →
  port_entries (added (record_effect ev.1 ev.2 u)) port_id !! lip_id
  = Some ev.2
  ∧ deleted (record_effect ev.1 ev.2 u) = deleted u.
Proof.
  intros (_ & Hp & Hl) Hk. rewrite record_effect_upsert by done. simpl.
  rewrite Hp, Hl, port_entries_insert_eq. split; [apply lookup_insert_eq|done].
Qed.

Lemma deleted_step ev u :
  pair_event port_id lip_id ev → ev.1 = DELETED →
  port_entries (added (record_effect ev.1 ev.2 u)) port_id !! lip_id = None
  ∧ port_entries (deleted (record_effect ev.1 ev.2 u)) port_id !! lip_id
    = Some ev.2.
Proof.
  intros (_ & Hp & Hl) ->. rewrite record_effect_deleted by done. simpl.
  rewrite Hp, Hl, !port_entries_insert_eq.
  split; [apply lookup_delete_eq|apply lookup_insert_eq].
Qed.

(** The id is pending as deleted exactly when it was so before or some event
    of the sequence was [DELETED]: an upsert never clears the deleted side. *)
Lemma events_in_deleted evs u :
  Forall (pair_event port_id lip_id) evs →
  in_deleted (events_effect evs u) port_id lip_id
  ↔ in_deleted u port_id lip_id ∨ DELETED ∈ evs.*1.
Proof.
  unfold events_effect. intros Hevs. revert u.
  induction Hevs as [|ev evs Hev _ IH]; intros u; simpl.
  - split; [auto|]. by intros [?|?%elem_of_nil].
  - rewrite IH, elem_of_cons. unfold in_deleted.
    destruct (pair_event_kind ev Hev) as [[Hk Hne]|Hk].
    + destruct (upsert_step ev u Hev Hk) as [_ ->].
      split; [intros [?|?]; auto|]. intros [?|[?|?]]; auto. by destruct Hne.
    + destruct (deleted_step ev u Hev Hk) as [_ ->].
      split; [auto|]. intros _. left. eauto.
Qed.

(** What the handler does over time: after any non-empty sequence of
    [CREATED]/[UPDATED]/[DELETED] events for one (port, local IP) pair,
    delivered to an initialized object, the id is pending as added exactly
    when the last event was [CREATED] or [UPDATED], and pending as deleted
    exactly when it was so before the sequence or some event of the sequence
    was [DELETED]. After a last [DELETED] it is pending as deleted only, with
    the last record; after a last upsert [added] holds the last record. *)
Theorem pair_events_latest_wins (context : RequestContext)
    (evs : list (string * LocalIPAssociation))
    (last_ev : string * LocalIPAssociation) (s : state)
    (u : updates port_table) :
  Forall (pair_event port_id lip_id) evs →
  last evs = Some last_ev →
  local_ip_updates s = Some u →
  ∃ s' u',
    deliver (event_notification context <$> evs) s = (Ok tt, s')
    ∧ local_ip_updates s' = Some u'
    ∧ (in_added u' port_id lip_id ↔ last_ev.1 ∈ [CREATED; UPDATED])
    ∧ (in_deleted u' port_id lip_id
       ↔ in_deleted u port_id lip_id ∨ DELETED ∈ evs.*1)
    ∧ (last_ev.1 = DELETED →
       port_entries (deleted u') port_id !! lip_id = Some last_ev.2
       ∧ port_entries (added u') port_id !! lip_id = None)
    ∧ (last_ev.1 ∈ [CREATED; UPDATED] →
       port_entries (added u') port_id !! lip_id = Some last_ev.2).
Proof.
  intros Hevs Hlast Hu.
  destruct (deliver_events context evs s u Hu) as [tr Hrun].
  do 2 eexists. split; [exact Hrun|]. split; [reflexivity|].
  split; [|split; [by apply events_in_deleted|]].
  all: apply last_Some in Hlast as [evs' ->].
  all: apply Forall_app in Hevs as [_ Hev]; apply Forall_inv in Hev.
  all: unfold events_effect, in_added; rewrite foldl_app; simpl.
  all: set (u1 := foldl _ u evs').
  - destruct (pair_event_kind last_ev Hev) as [[Hk Hne]|Hk].
    + destruct (upsert_step last_ev u1 Hev Hk) as [-> _].
      split; [done|eauto].
    + destruct (deleted_step last_ev u1 Hev Hk) as [-> _].
      split; [by intros [? ?]|]. intros Hcu. rewrite Hk in Hcu. done.
  - split.
    + intros Hk. destruct (deleted_step last_ev u1 Hev Hk) as [-> ->]. done.
    + intros Hk. by destruct (upsert_step last_ev u1 Hev Hk) as [-> _].
Qed.

End OnePair.

(** ** The bulk pull *)

Lemma for_each_mutate_silent {A} (l : list A) (body : A → M unit)
    (g : A → updates port_table → updates port_table) :
  (∀ x s u, local_ip_updates s = Some u →
            body x s = (Ok tt, with_updates s (g x u))) →
  ∀ s u, local_ip_updates s = Some u →
    for_each l body s = (Ok tt, with_updates s (foldl (λ u x, g x u) u l)).
Proof.
  intros Hbody. induction l as [|x l IH]; intros s u Hu; simpl.
  - by rewrite with_updates_id.
  - unfold bind. rewrite (Hbody x s u Hu).
    by rewrite (IH _ (g x u)) by reflexivity.
Qed.

Lemma pull_all_spec s rpc u :
  resource_rpc s = Some rpc →
  local_ip_updates s = Some u →
  _pull_all_local_ip_associations s
  = (Ok tt,
     add_trace (with_updates s (seeded (server_associations s) u))
               [BulkPull AdminContextWithoutSession LOCAL_IP_ASSOCIATION]).
Proof.
  intros Hrpc Hu.
  unfold _pull_all_local_ip_associations, bulk_pull, bind, get_resource_rpc.
  rewrite Hrpc, emit_spec.
  rewrite (for_each_mutate_silent _ _ seed_effect) with (u := u); try done.
  intros a s1 u1 Hu1. by apply mutate_spec.
Qed.

Lemma seed_effect_eq a u :
  seed_effect a u
  = {| added := <[fixed_port_id a :=
                    <[local_ip_id a := a]>
                      (port_entries (added u) (fixed_port_id a))]> (added u);
       deleted := deleted u |}.
Proof. unfold seed_effect, set_added. by rewrite table_setitem_eq. Qed.

Lemma seeded_snoc l a u : seeded (l ++ [a]) u = seed_effect a (seeded l u).
Proof. unfold seeded. by rewrite foldl_snoc. Qed.

Lemma seeded_deleted l u : deleted (seeded l u) = deleted u.
Proof.
  induction l as [|a l IH] using rev_ind; [done|].
  by rewrite seeded_snoc, seed_effect_eq.
Qed.

Lemma seeded_dom l u :
  dom (added (seeded l u))
  = dom (added u) ∪ list_to_set (fixed_port_id <$> l).
Proof.
  induction l as [|a l IH] using rev_ind.
  - simpl. by rewrite (right_id_L ∅ (∪)).
  - rewrite seeded_snoc, seed_effect_eq. simpl.
    rewrite dom_insert_L, IH, fmap_app, list_to_set_app_L. simpl.
    rewrite (right_id_L ∅ (∪)), (comm_L (∪) {[_]}). by rewrite (assoc_L (∪)).
Qed.

(** With pairwise different keys, a pending entry of the seeded tables is a
    pulled association filed under its own port and local IP. *)
Lemma seeded_lookup l p lip a :
  NoDup (assoc_key <$> l) →
  port_entries (added (seeded l empty_updates)) p !! lip = Some a
  ↔ a ∈ l ∧ fixed_port_id a = p ∧ local_ip_id a = lip.
Proof.
  induction l as [|x l IH] using rev_ind; intros Hnd.
  - simpl. rewrite port_entries_empty, lookup_empty.
    split; [done|]. by intros [?%elem_of_nil _].
  - rewrite fmap_app in Hnd. apply NoDup_app in Hnd as (Hnd & Hfresh & _).
    specialize (IH Hnd).
    assert (assoc_key x ∉ assoc_key <$> l) as Hx.
    { intros Hin. apply (Hfresh _ Hin). simpl. apply list_elem_of_here. }
    rewrite seeded_snoc, seed_effect_eq. simpl. rewrite elem_of_app.
    rewrite list_elem_of_singleton.
    destruct (decide (fixed_port_id x = p)) as [<-|Hp].
    + rewrite port_entries_insert_eq.
      destruct (decide (local_ip_id x = lip)) as [<-|Hl].
      * rewrite lookup_insert_eq. split.
        -- intros [= <-]. auto.
        -- intros ([Hin| ->] & Hp & Hl); [|done].
           destruct Hx. apply list_elem_of_fmap. exists a. split; [|done].
           unfold assoc_key. by rewrite Hp, Hl.
      * rewrite lookup_insert_ne by done. rewrite IH. split.
        -- intros (? & ? & ?). auto.
        -- intros ([Hin| ->] & ? & ?); [auto|done].
    + rewrite port_entries_insert_ne by done. rewrite IH. split.
      * intros (? & ? & ?). auto.
      * intros ([Hin| ->] & ? & ?); [auto|done].
Qed.

Lemma list_to_set_remove_dups_size (l : list string) :
  size (list_to_set (C := gset string) l) = length (remove_dups l).
Proof.
  rewrite <- (size_list_to_set (C := gset string) (remove_dups l))
    by apply NoDup_remove_dups.
  f_equal. apply set_eq. intros x.
  by rewrite !elem_of_list_to_set, elem_of_remove_dups.
Qed.

(** C6: from empty tables, when the server answers the bulk pull
    with associations of pairwise different (port, local IP) keys, the pull
    returns normally; the keys of [added] are exactly the ports of the pulled
    associations (as many as there are different ports), the mapping of each
    port holds exactly the pulled associations of that port under their local
    IP ids, [deleted] stays empty, and the only call made is the pull. *)
Theorem pull_all_seeds_added (s : state) (rpc : ResourcesPullRpcApi) :
  resource_rpc s = Some rpc →
  local_ip_updates s = Some empty_updates →
  NoDup (assoc_key <$> server_associations s) →
  ∃ s' u',
    _pull_all_local_ip_associations s = (Ok tt, s')
    ∧ local_ip_updates s' = Some u'
    ∧ dom (added u') = list_to_set (fixed_port_id <$> server_associations s)
    ∧ size (added u')
      = length (remove_dups (fixed_port_id <$> server_associations s))
    ∧ (∀ p d, added u' !! p = Some d →
         ∀ lip a, d !! lip = Some a
                  ↔ a ∈ server_associations s
                    ∧ fixed_port_id a = p ∧ local_ip_id a = lip)
    ∧ deleted u' = ∅
    ∧ trace s'
      = trace s ++ [BulkPull AdminContextWithoutSession LOCAL_IP_ASSOCIATION].
Proof.
  intros Hrpc Hu Hnd. do 2 eexists.
  split; [by eapply pull_all_spec|].
  split; [reflexivity|].
  assert (dom (added (seeded (server_associations s) empty_updates))
          = list_to_set (fixed_port_id <$> server_associations s)) as Hdom.
  { rewrite seeded_dom. simpl. by rewrite dom_empty_L, (left_id_L ∅ (∪)). }
  split; [exact Hdom|].
  split; [by rewrite <- size_dom, Hdom, list_to_set_remove_dups_size|].
  split; [|split; [by rewrite seeded_deleted|reflexivity]].
  intros p d Hd lip a. rewrite <- (seeded_lookup _ p lip a Hnd).
  unfold port_entries. by rewrite Hd.
Qed.

(** ** Initialization under the supported driver *)

Lemma initialize_spec connection s :
  initialize connection EXTENSION_DRIVER_TYPE s
  = (Ok tt,
     {| resource_rpc := Some ResourcesPullRpcApi_new;
        local_ip_updates :=
          Some (seeded (server_associations s) empty_updates);
        server_associations := server_associations s;
        trace := trace s ++
          [RegistryRegister LOCAL_IP_ASSOCIATION;
           CreateConsumer connection
             (resource_type_versioned_topic LOCAL_IP_ASSOCIATION)
             [ResourcesPushRpcCallback] true;
           BulkPull AdminContextWithoutSession LOCAL_IP_ASSOCIATION] |}).
Proof.
  unfold initialize. rewrite bool_decide_eq_false_2 by (intros Hne; by apply Hne).
  repeat (erewrite bind_ok by reflexivity).
  erewrite pull_all_spec by reflexivity.
  unfold add_trace, with_updates. simpl. by rewrite <- !app_assoc.
Qed.

(** The calls of [initialize]: under the supported driver it returns
    normally having made exactly three calls, in this order:
    [registry.register] of the handler, [create_consumer] on the connection,
    then the bulk pull; when it returns, the store holds the seeded
    tables. *)
Theorem initialize_subscribes_then_seeds (connection : string) (s : state) :
  ∃ s',
    initialize connection EXTENSION_DRIVER_TYPE s = (Ok tt, s')
    ∧ drop (length (trace s)) (trace s')
      = [RegistryRegister LOCAL_IP_ASSOCIATION;
         CreateConsumer connection
           (resource_type_versioned_topic LOCAL_IP_ASSOCIATION)
           [ResourcesPushRpcCallback] true;
         BulkPull AdminContextWithoutSession LOCAL_IP_ASSOCIATION]
    ∧ subscribe_before_seed (drop (length (trace s)) (trace s'))
    ∧ local_ip_updates s'
      = Some (seeded (server_associations s) empty_updates).
Proof.
  eexists. split; [apply initialize_spec|]. simpl.
  rewrite drop_app_length. split; [reflexivity|]. split; [|reflexivity].
  intros j e' Hj He'. destruct j as [|[|[|j]]]; simpl in Hj.
  - by injection Hj as <-.
  - by injection Hj as <-.
  - exists 0, (RegistryRegister LOCAL_IP_ASSOCIATION). split; [lia|done].
  - done.
Qed.

(** ** Upserts and the calls of a notification *)

(** X1: a [CREATED] or [UPDATED] notification carrying [assoc] files it
    under [added[port][lip]], replacing what was there; the other local IPs of
    the port, the other ports and the whole [deleted] table are as before, and
    delivering the same notification again changes no table. *)
Theorem upsert_record_files_added (context : RequestContext)
    (event_type : string) (assoc : LocalIPAssociation) (s : state)
    (u : updates port_table) :
  event_type ∈ [CREATED; UPDATED] →
  local_ip_updates s = Some u →
  ∃ s' u',
    _handle_notification context LOCAL_IP_ASSOCIATION [assoc] event_type s
    = (Ok tt, s')
    ∧ local_ip_updates s' = Some u'
    ∧ port_entries (added u') (fixed_port_id assoc) !! local_ip_id assoc
      = Some assoc
    ∧ (∀ l, l ≠ local_ip_id assoc →
         port_entries (added u') (fixed_port_id assoc) !! l
         = port_entries (added u) (fixed_port_id assoc) !! l)
    ∧ (∀ q, q ≠ fixed_port_id assoc → added u' !! q = added u !! q)
    ∧ deleted u' = deleted u
    ∧ ∃ s'',
        _handle_notification context LOCAL_IP_ASSOCIATION [assoc] event_type s'
        = (Ok tt, s'')
        ∧ local_ip_updates s'' = Some u'.
Proof.
  intros Hk Hu. do 2 eexists.
  split; [by apply handle_notification_spec|].
  split; [reflexivity|]. simpl. rewrite record_effect_upsert by done. simpl.
  rewrite !port_entries_insert_eq.
  split; [apply lookup_insert_eq|].
  split; [intros l Hl; by rewrite lookup_insert_ne|].
  split; [intros q Hq; by rewrite lookup_insert_ne|].
  split; [reflexivity|].
  eexists. split; [by apply handle_notification_spec|].
  simpl. rewrite record_effect_upsert by done. simpl.
  by rewrite port_entries_insert_eq, !insert_insert_eq.
Qed.

(** X2: on an object that has its tables, a notification of the
    supported type returns normally whatever its event type, and the calls it
    makes are one info log followed by one port-updated payload per record,
    for that record's port, in batch order (a port named twice is published
    twice). *)
Theorem handle_notification_publishes_per_record (context : RequestContext)
    (batch : list LocalIPAssociation) (event_type : string) (s : state)
    (u : updates port_table) :
  local_ip_updates s = Some u →
  ∃ s',
    _handle_notification context LOCAL_IP_ASSOCIATION batch event_type s
    = (Ok tt, s')
    ∧ trace s' = trace s ++ LogInfo batch event_type
                   :: (port_updated context ∘ fixed_port_id <$> batch)
    ∧ is_Some (local_ip_updates s')
    ∧ resource_rpc s' = resource_rpc s
    ∧ server_associations s' = server_associations s.
Proof.
  intros Hu. eexists. split; [by apply handle_notification_spec|].
  simpl. repeat split. eauto.
Qed.

(** ** Missing attributes and keys *)

Lemma initialize_wrong_driver connection driver_type s :
  driver_type ≠ EXTENSION_DRIVER_TYPE →
  (initialize connection driver_type s).2 = add_trace s [LogError driver_type]
  ∧ (initialize connection driver_type s).1 = Raise (SystemExit 1).
Proof.
  intros Hne. unfold initialize, bind.
  rewrite bool_decide_eq_true_2 by done. by rewrite emit_spec.
Qed.

Lemma delete_port_without_key context port s u :
  port !! "port_id" = None →
  local_ip_updates s = Some u →
  delete_port context port s = (Raise (KeyError "port_id"), s).
Proof.
  intros Hp Hu. unfold delete_port, bind, get_local_ip_updates, port_getitem.
  by rewrite Hu, Hp.
Qed.

Lemma mutate_raises f s :
  local_ip_updates s = None →
  mutate_local_ip_updates f s = (Raise (AttributeError "local_ip_updates"), s).
Proof.
  intros Hu. unfold mutate_local_ip_updates, bind, get_local_ip_updates.
  by rewrite Hu.
Qed.

(** X3: on an object whose tables were never created, a notification
    of the supported type and of one of the three event kinds with at least
    one record raises [AttributeError] at its first record: the info log is
    the only call made, and nothing is published. *)
Theorem handle_notification_without_store_raises (context : RequestContext)
    (assoc : LocalIPAssociation) (batch : list LocalIPAssociation)
    (event_type : string) (s : state) :
  local_ip_updates s = None →
  event_type ∈ [CREATED; UPDATED; DELETED] →
  _handle_notification context LOCAL_IP_ASSOCIATION (assoc :: batch)
                       event_type s
  = (Raise (AttributeError "local_ip_updates"),
     add_trace s [LogInfo (assoc :: batch) event_type]).
Proof.
  intros Hu Hk. unfold _handle_notification.
  rewrite bool_decide_eq_false_2 by (intros Hne; by apply Hne).
  unfold bind at 1. rewrite emit_spec. simpl. unfold bind at 1 2.
  case_bool_decide as Hcu.
  - by rewrite mutate_raises.
  - rewrite bool_decide_eq_true_2.
    + unfold bind. by rewrite mutate_raises.
    + rewrite !elem_of_cons in Hk. rewrite !elem_of_cons in Hcu.
      destruct Hk as [?|[?|[?|?%elem_of_nil]]]; try done;
        destruct Hcu; auto.
Qed.

(** X4: [delete_port] on a port dict without the key ['port_id']
    raises [KeyError] and leaves the object, so both tables, as it was. *)
Theorem delete_port_without_port_id (context : RequestContext)
    (port : gmap string string) (s : state) (u : updates port_table) :
  port !! "port_id" = None →
  local_ip_updates s = Some u →
  delete_port context port s = (Raise (KeyError "port_id"), s).
Proof.
  intros Hp Hu. unfold delete_port, bind, get_local_ip_updates, port_getitem.
  by rewrite Hu, Hp.
Qed.

(** X5: on an object whose tables were never created, the drain and
    [delete_port] raise [AttributeError] and change nothing; for
    [delete_port] this comes before the port dict is read. *)
Theorem drain_and_discard_without_store_raise (context : RequestContext)
    (port : gmap string string) (port_id : string) (s : state) :
  local_ip_updates s = None →
  _pop_local_ip_updates_for_port port_id s
  = (Raise (AttributeError "local_ip_updates"), s)
  ∧ delete_port context port s
    = (Raise (AttributeError "local_ip_updates"), s).
Proof.
  intros Hu.
  unfold _pop_local_ip_updates_for_port, delete_port, bind,
    get_local_ip_updates.
  by rewrite Hu.
Qed.

(** X6: [delete_port] for a port dict carrying [port_id] leaves the
    entries of every other port in both tables as they were, makes no call,
    and run a second time changes nothing. *)
Theorem delete_port_leaves_other_ports (context : RequestContext)
    (port : gmap string string) (port_id : string) (s : state)
    (u : updates port_table) :
  port !! "port_id" = Some port_id →
  local_ip_updates s = Some u →
  ∃ s' u',
    delete_port context port s = (Ok tt, s')
    ∧ local_ip_updates s' = Some u'
    ∧ (∀ q, q ≠ port_id →
         added u' !! q = added u !! q ∧ deleted u' !! q = deleted u !! q)
    ∧ trace s' = trace s
    ∧ delete_port context port s' = (Ok tt, s').
Proof.
  intros Hp Hu. do 2 eexists. split; [by eapply delete_port_spec|].
  split; [reflexivity|]. simpl.
  split; [intros q Hq; by rewrite !lookup_delete_ne|].
  split; [reflexivity|].
  erewrite delete_port_spec by done. simpl.
  by rewrite !delete_delete_eq.
Qed.

(** ** Sequences of notifications *)

Lemma handle_notification_calls n s u :
  local_ip_updates s = Some u →
  _handle_notification (n_context n) (n_resource_type n)
                       (n_associations n) (n_event_type n) s
  = (Ok tt, add_trace (with_updates s (notification_effect n u))
                      (notification_calls n)).
Proof.
  intros Hu. unfold notification_effect, notification_calls.
  destruct (decide (n_resource_type n = LOCAL_IP_ASSOCIATION)) as [Hty|Hne].
  - rewrite !bool_decide_eq_false_2 by (intros Hne; by apply Hne).
    rewrite Hty. by apply handle_notification_spec.
  - rewrite !bool_decide_eq_true_2 by done.
    unfold _handle_notification. rewrite bool_decide_eq_true_2 by done.
    by rewrite (with_updates_id s u Hu).
Qed.

Lemma deliver_calls ns s u :
  local_ip_updates s = Some u →
  deliver ns s
  = (Ok tt, add_trace (with_updates s (tables_after ns u))
                      (concat (notification_calls <$> ns))).
Proof.
  unfold deliver, tables_after. revert s u.
  induction ns as [|n ns IH]; intros s u Hu; simpl.
  - by rewrite add_trace_nil, with_updates_id.
  - unfold bind. rewrite (handle_notification_calls n s u Hu).
    rewrite (IH _ (notification_effect n u)) by reflexivity.
    unfold add_trace, with_updates. simpl. by rewrite <- app_assoc.
Qed.

Lemma foldl_preserves {A B} (P : A → Prop) (f : A → B → A) (l : list B) a :
  (∀ a b, b ∈ l → P a → P (f a b)) → P a → P (foldl f a l).
Proof.
  revert a. induction l as [|b l IH]; intros a Hf Ha; simpl; [done|].
  apply IH.
  - intros a' b' Hb'. apply Hf. by apply list_elem_of_further.
  - apply Hf; [apply list_elem_of_here|done].
Qed.

(** A record only touches the entries of its own port. *)
Lemma record_effect_frame event_type assoc u q :
  q ≠ fixed_port_id assoc →
  added (record_effect event_type assoc u) !! q = added u !! q
  ∧ deleted (record_effect event_type assoc u) !! q = deleted u !! q.
Proof.
  intros Hq. unfold record_effect.
  case_bool_decide; [|case_bool_decide]; simpl;
    rewrite ?table_setitem_eq, ?table_popitem_eq;
    by rewrite ?lookup_insert_ne.
Qed.

Lemma notification_effect_frame n u q :
  q ∉ notification_ports n →
  added (notification_effect n u) !! q = added u !! q
  ∧ deleted (notification_effect n u) !! q = deleted u !! q.
Proof.
  unfold notification_effect, notification_ports. intros Hq.
  case_bool_decide; [done|].
  apply (foldl_preserves
           (λ v, added v !! q = added u !! q ∧ deleted v !! q = deleted u !! q));
    [|done].
  intros v a Ha [Hv1 Hv2].
  destruct (record_effect_frame (n_event_type n) a v q) as [-> ->]; [|done].
  intros ->. apply Hq. by apply list_elem_of_fmap_2.
Qed.

Lemma tables_after_frame ns u q :
  (∀ n, n ∈ ns → q ∉ notification_ports n) →
  added (tables_after ns u) !! q = added u !! q
  ∧ deleted (tables_after ns u) !! q = deleted u !! q.
Proof.
  intros Hq. unfold tables_after.
  apply (foldl_preserves
           (λ v, added v !! q = added u !! q ∧ deleted v !! q = deleted u !! q));
    [|done].
  intros v n Hn [Hv1 Hv2].
  destruct (notification_effect_frame n v q) as [-> ->]; [by apply Hq|done].
Qed.

(** X7: a sequence of notifications delivered to an object that has
    its tables returns normally and leaves, in both tables, the entry of every
    port that none of its records names exactly as it was (absent stays
    absent). *)
Theorem deliver_leaves_unnamed_ports (ns : list notification) (q : string)
    (s : state) (u : updates port_table) :
  (∀ n, n ∈ ns → q ∉ notification_ports n) →
  local_ip_updates s = Some u →
  ∃ s' u',
    deliver ns s = (Ok tt, s')
    ∧ local_ip_updates s' = Some u'
    ∧ added u' !! q = added u !! q
    ∧ deleted u' !! q = deleted u !! q.
Proof.
  intros Hq Hu. do 2 eexists. split; [by apply deliver_calls|].
  split; [reflexivity|]. by apply tables_after_frame.
Qed.

(** A record never removes a port key, and never removes a local IP from
    the deleted side. *)
Lemma record_effect_keeps event_type assoc u :
  (∀ q, is_Some (added u !! q) →
        is_Some (added (record_effect event_type assoc u) !! q))
  ∧ (∀ q, is_Some (deleted u !! q) →
          is_Some (deleted (record_effect event_type assoc u) !! q))
  ∧ (∀ p l, in_deleted u p l →
            in_deleted (record_effect event_type assoc u) p l).
Proof.
  unfold record_effect, in_deleted.
  case_bool_decide; [|case_bool_decide]; simpl;
    rewrite ?table_setitem_eq, ?table_popitem_eq; try done.
  - split; [|done]. intros q Hq.
    destruct (decide (fixed_port_id assoc = q)) as [<-|Hne];
      [rewrite lookup_insert_eq; eauto|by rewrite lookup_insert_ne].
  - split; [|split].
    + intros q Hq.
      destruct (decide (fixed_port_id assoc = q)) as [<-|Hne];
        [rewrite lookup_insert_eq; eauto|by rewrite lookup_insert_ne].
    + intros q Hq.
      destruct (decide (fixed_port_id assoc = q)) as [<-|Hne];
        [rewrite lookup_insert_eq; eauto|by rewrite lookup_insert_ne].
    + intros p l Hin.
      destruct (decide (fixed_port_id assoc = p)) as [<-|Hne];
        [|by rewrite port_entries_insert_ne].
      rewrite port_entries_insert_eq.
      destruct (decide (local_ip_id assoc = l)) as [<-|Hl];
        [rewrite lookup_insert_eq; eauto|by rewrite lookup_insert_ne].
Qed.

(** X8: notifications never clear anything on their own: after any
    sequence delivered to an object that has its tables, every port key of
    either table is still a key, and every local IP pending as deleted is
    still pending as deleted. *)
Theorem deliver_never_clears (ns : list notification) (s : state)
    (u : updates port_table) :
  local_ip_updates s = Some u →
  ∃ s' u',
    deliver ns s = (Ok tt, s')
    ∧ local_ip_updates s' = Some u'
    ∧ (∀ q, is_Some (added u !! q) → is_Some (added u' !! q))
    ∧ (∀ q, is_Some (deleted u !! q) → is_Some (deleted u' !! q))
    ∧ (∀ p l, in_deleted u p l → in_deleted u' p l).
Proof.
  intros Hu. do 2 eexists. split; [by apply deliver_calls|].
  split; [reflexivity|]. unfold tables_after.
  apply (foldl_preserves
           (λ v, (∀ q, is_Some (added u !! q) → is_Some (added v !! q))
                 ∧ (∀ q, is_Some (deleted u !! q) → is_Some (deleted v !! q))
                 ∧ (∀ p l, in_deleted u p l → in_deleted v p l)));
    [|done].
  intros v n _ Hv. unfold notification_effect. case_bool_decide; [done|].
  apply (foldl_preserves
           (λ v, (∀ q, is_Some (added u !! q) → is_Some (added v !! q))
                 ∧ (∀ q, is_Some (deleted u !! q) → is_Some (deleted v !! q))
                 ∧ (∀ p l, in_deleted u p l → in_deleted v p l)));
    [|done].
  intros w a _ (Hw1 & Hw2 & Hw3).
  destruct (record_effect_keeps (n_event_type n) a w) as (Hk1 & Hk2 & Hk3).
  split; [|split]; eauto.
Qed.

Lemma notification_effect_unhandled n u :
  ¬ handled n → notification_effect n u = u.
Proof.
  unfold handled, notification_effect. intros Hn.
  case_bool_decide as Hty; [done|].
  apply (foldl_preserves (λ v, v = u)); [|done].
  intros v a _ ->. unfold record_effect.
  rewrite !bool_decide_eq_false_2; [done| |].
  - intros Hd. apply Hn. split; [|by right].
    by destruct (decide (n_resource_type n = LOCAL_IP_ASSOCIATION)).
  - intros Hcu. apply Hn. split; [|by left].
    by destruct (decide (n_resource_type n = LOCAL_IP_ASSOCIATION)).
Qed.

Lemma tables_after_handled ns u :
  tables_after ns u = tables_after (filter handled ns) u.
Proof.
  unfold tables_after. revert u.
  induction ns as [|n ns IH]; intros u; [done|].
  rewrite filter_cons. destruct (decide (handled n)) as [Hn|Hn]; simpl.
  - apply IH.
  - rewrite notification_effect_unhandled by done. apply IH.
Qed.

(** X9: notifications of another resource type or of an unknown event
    kind do not affect the other pending state: a sequence leaves the same
    tables as the sequence without them. *)
Theorem deliver_ignores_unhandled (ns : list notification) (s : state)
    (u : updates port_table) :
  local_ip_updates s = Some u →
  ∃ s1 s2,
    deliver ns s = (Ok tt, s1)
    ∧ deliver (filter handled ns) s = (Ok tt, s2)
    ∧ local_ip_updates s1 = local_ip_updates s2.
Proof.
  intros Hu. do 2 eexists.
  split; [by apply deliver_calls|]. split; [by apply deliver_calls|].
  simpl. by rewrite <- tables_after_handled.
Qed.

(** ** The drain against notifications for other ports *)

Lemma record_effect_drop_port event_type assoc u p :
  p ≠ fixed_port_id assoc →
  drop_port p (record_effect event_type assoc u)
  = record_effect event_type assoc (drop_port p u).
Proof.
  intros Hp. unfold record_effect, drop_port, set_added.
  case_bool_decide; [|case_bool_decide]; simpl;
    rewrite ?table_setitem_eq, ?table_popitem_eq; [| |done].
  - rewrite delete_insert_ne by done. unfold port_entries.
    by rewrite lookup_delete_ne.
  - rewrite !delete_insert_ne by done. unfold port_entries.
    by rewrite !lookup_delete_ne.
Qed.

Lemma tables_after_drop_port ns u p :
  (∀ n, n ∈ ns → p ∉ notification_ports n) →
  drop_port p (tables_after ns u) = tables_after ns (drop_port p u).
Proof.
  unfold tables_after. revert u.
  induction ns as [|n ns IH]; intros u Hp; [done|]. simpl.
  rewrite IH by (intros n' Hn'; apply Hp; by apply list_elem_of_further).
  f_equal. unfold notification_effect. case_bool_decide; [done|].
  assert (p ∉ notification_ports n) as Hn by (apply Hp; apply list_elem_of_here).
  unfold notification_ports in Hn. clear -Hn.
  revert u. induction (n_associations n) as [|a l IHl]; intros u; [done|].
  simpl. rewrite fmap_cons in Hn. apply not_elem_of_cons in Hn as [Ha Hl].
  rewrite IHl by done. by rewrite record_effect_drop_port.
Qed.

(** X10: the drain of a port commutes with notifications whose records
    name only other ports: draining after the delivery and draining before it
    return the same mappings and end in the same state. *)
Theorem drain_commutes_with_other_ports (port_id : string)
    (ns : list notification) (s : state) (u : updates port_table) :
  (∀ n, n ∈ ns → port_id ∉ notification_ports n) →
  local_ip_updates s = Some u →
  (deliver ns >> _pop_local_ip_updates_for_port port_id) s
  = (let* r := _pop_local_ip_updates_for_port port_id in
     deliver ns >> ret r) s.
Proof.
  intros Hp Hu. unfold bind.
  rewrite (deliver_calls ns s u Hu).
  erewrite pop_spec by reflexivity.
  rewrite (pop_spec port_id s u Hu).
  erewrite deliver_calls by reflexivity. unfold ret.
  destruct (tables_after_frame ns u port_id Hp) as [Ha Hd].
  unfold port_entries. rewrite Ha, Hd. f_equal.
  unfold add_trace, with_updates. simpl. do 2 f_equal.
  apply (tables_after_drop_port ns u port_id Hp).
Qed.

(** X11: splitting a batch does not change the outcome: a notification
    carrying [l1 ++ l2] leaves the same tables and publishes the same
    payloads, in the same order, as a notification carrying [l1] followed by
    one carrying [l2]. *)
Theorem batch_split (context : RequestContext)
    (l1 l2 : list LocalIPAssociation) (event_type : string) (s : state)
    (u : updates port_table) :
  local_ip_updates s = Some u →
  ∃ s1 s2,
    _handle_notification context LOCAL_IP_ASSOCIATION (l1 ++ l2) event_type s
    = (Ok tt, s1)
    ∧ (_handle_notification context LOCAL_IP_ASSOCIATION l1 event_type >>
       _handle_notification context LOCAL_IP_ASSOCIATION l2 event_type) s
      = (Ok tt, s2)
    ∧ local_ip_updates s1 = local_ip_updates s2
    ∧ filter (λ e, is_publish e = true) (drop (length (trace s)) (trace s1))
      = filter (λ e, is_publish e = true) (drop (length (trace s)) (trace s2)).
Proof.
  intros Hu. do 2 eexists.
  split; [by apply handle_notification_spec|].
  split.
  { unfold bind. rewrite (handle_notification_spec _ l1 _ s u Hu).
    by erewrite handle_notification_spec by reflexivity. }
  simpl. split; [by rewrite foldl_app|].
  rewrite <- app_assoc, !drop_app_length. simpl.
  rewrite !filter_cons_False by (simpl; done).
  rewrite fmap_app, !filter_app.
  by rewrite (filter_cons_False _ (LogInfo l2 event_type)) by (simpl; done).
Qed.

(** ** Records stay filed under their own ids *)

Lemma well_filed_table_entries (t : port_table) p l a :
  well_filed_table t → port_entries t p !! l = Some a →
  fixed_port_id a = p ∧ local_ip_id a = l.
Proof.
  intros Ht. unfold port_entries.
  destruct (t !! p) as [d|] eqn:Hd; simpl; [by apply (Ht p d)|].
  by rewrite lookup_empty.
Qed.

Lemma well_filed_table_insert (t : port_table) p d :
  well_filed_table t →
  (∀ l a, d !! l = Some a → fixed_port_id a = p ∧ local_ip_id a = l) →
  well_filed_table (<[p := d]> t).
Proof.
  intros Ht Hd q d' l a Hq Hl.
  destruct (decide (p = q)) as [<-|Hne].
  - rewrite lookup_insert_eq in Hq. injection Hq as <-. by apply Hd.
  - rewrite lookup_insert_ne in Hq by done. by apply (Ht q d').
Qed.

Lemma well_filed_table_delete (t : port_table) p :
  well_filed_table t → well_filed_table (delete p t).
Proof.
  intros Ht q d l a Hq Hl. apply lookup_delete_Some in Hq as [_ Hq].
  by apply (Ht q d).
Qed.

Lemma well_filed_table_setitem (t : port_table) a :
  well_filed_table t →
  well_filed_table (table_setitem t (fixed_port_id a) (local_ip_id a) a).
Proof.
  intros Ht. rewrite table_setitem_eq. apply well_filed_table_insert; [done|].
  intros l b Hb. destruct (decide (local_ip_id a = l)) as [<-|Hne].
  - rewrite lookup_insert_eq in Hb. by injection Hb as <-.
  - rewrite lookup_insert_ne in Hb by done.
    by apply (well_filed_table_entries t).
Qed.

Lemma well_filed_table_popitem (t : port_table) p l :
  well_filed_table t → well_filed_table (table_popitem t p l).
Proof.
  intros Ht. rewrite table_popitem_eq. apply well_filed_table_insert; [done|].
  intros l' b Hb. apply lookup_delete_Some in Hb as [_ Hb].
  by apply (well_filed_table_entries t).
Qed.

Lemma record_effect_well_filed event_type a u :
  well_filed u → well_filed (record_effect event_type a u).
Proof.
  intros [Ha Hd]. unfold record_effect.
  case_bool_decide; [|case_bool_decide]; [| |done]; split; simpl;
    auto using well_filed_table_setitem, well_filed_table_popitem.
Qed.

Lemma tables_after_well_filed ns u :
  well_filed u → well_filed (tables_after ns u).
Proof.
  intros Hu. unfold tables_after. apply foldl_preserves; [|done].
  intros v n _ Hv. unfold notification_effect. case_bool_decide; [done|].
  apply foldl_preserves; [|done].
  intros w a _. apply record_effect_well_filed.
Qed.

Lemma seeded_well_filed l u : well_filed u → well_filed (seeded l u).
Proof.
  intros Hu. unfold seeded. apply foldl_preserves; [|done].
  intros v a _ [Ha Hd]. split; simpl; [|done].
  by apply well_filed_table_setitem.
Qed.

Lemma empty_updates_well_filed : well_filed empty_updates.
Proof. split; intros p d l a Hp; simpl in Hp; by rewrite lookup_empty in Hp. Qed.

Lemma drop_port_well_filed p u : well_filed u → well_filed (drop_port p u).
Proof. intros [Ha Hd]. split; by apply well_filed_table_delete. Qed.

(** Without tables, no method other than [initialize] creates them. *)
Lemma for_each_keeps_none {A} (l : list A) (body : A → M unit) :
  (∀ x s, local_ip_updates s = None → local_ip_updates (body x s).2 = None) →
  ∀ s, local_ip_updates s = None →
       local_ip_updates (for_each l body s).2 = None.
Proof.
  intros Hbody. induction l as [|x l IH]; intros s Hs; simpl; [done|].
  unfold bind. specialize (Hbody x s Hs).
  destruct (body x s) as [[[]|e] s1]; simpl in *; [by apply IH|done].
Qed.

Lemma handle_notification_keeps_none context resource_type batch event_type s :
  local_ip_updates s = None →
  local_ip_updates
    (_handle_notification context resource_type batch event_type s).2 = None.
Proof.
  intros Hs. unfold _handle_notification. case_bool_decide; [done|].
  unfold bind at 1. rewrite emit_spec.
  apply for_each_keeps_none; [|done].
  intros a s1 Hs1. unfold bind.
  case_bool_decide; [|case_bool_decide].
  - by rewrite mutate_raises.
  - by rewrite mutate_raises.
  - done.
Qed.

Lemma pull_all_keeps_none s :
  local_ip_updates s = None →
  local_ip_updates (_pull_all_local_ip_associations s).2 = None.
Proof.
  intros Hs.
  unfold _pull_all_local_ip_associations, bulk_pull, bind, get_resource_rpc.
  destruct (resource_rpc s); [|done]. rewrite emit_spec.
  apply for_each_keeps_none; [|done].
  intros a s1 Hs1. by rewrite mutate_raises.
Qed.

Lemma run_call_well_filed c s :
  tables_well_filed s → tables_well_filed (run_call c s).2.
Proof.
  intros Hs. destruct c as [conn dt|n| |p|ctx port]; simpl.
  - destruct (decide (dt = EXTENSION_DRIVER_TYPE)) as [->|Hne].
    + rewrite initialize_spec. intros u [= <-].
      apply seeded_well_filed, empty_updates_well_filed.
    + destruct (initialize_wrong_driver conn dt s Hne) as [-> _]. done.
  - destruct (local_ip_updates s) as [u|] eqn:Hu.
    + rewrite (handle_notification_calls n s u Hu). intros u' [= <-].
      apply (tables_after_well_filed [n]). by apply Hs.
    + intros u' Hu'. by rewrite handle_notification_keeps_none in Hu'.
  - destruct (local_ip_updates s) as [u|] eqn:Hu.
    + destruct (resource_rpc s) as [rpc|] eqn:Hrpc.
      * rewrite (pull_all_spec s rpc u Hrpc Hu). intros u' [= <-].
        apply seeded_well_filed. by apply Hs.
      * unfold _pull_all_local_ip_associations, bulk_pull, bind,
          get_resource_rpc. by rewrite Hrpc.
    + intros u' Hu'. by rewrite pull_all_keeps_none in Hu'.
  - unfold bind. destruct (local_ip_updates s) as [u|] eqn:Hu.
    + rewrite (pop_spec p s u Hu). intros u' [= <-].
      apply (drop_port_well_filed p u). by apply Hs.
    + unfold _pop_local_ip_updates_for_port, bind, get_local_ip_updates.
      rewrite Hu. done.
  - destruct (local_ip_updates s) as [u|] eqn:Hu.
    + destruct (port !! "port_id") as [p|] eqn:Hp.
      * rewrite (delete_port_spec ctx port p s u Hp Hu). intros u' [= <-].
        apply (drop_port_well_filed p u). by apply Hs.
      * by rewrite (delete_port_without_key ctx port s u Hp Hu).
    + unfold delete_port, bind, get_local_ip_updates. rewrite Hu. done.
Qed.

(** X12: whatever methods the agent calls on the extension and
    whatever they return, the tables stay well filed: every association held
    in [added] or [deleted] sits under its own [fixed_port_id] and its own
    [local_ip_id]. *)
Theorem calls_keep_tables_well_filed (cs : list call) (s : state) :
  tables_well_filed s → tables_well_filed (run_calls cs s).2.
Proof.
  unfold run_calls. revert s.
  induction cs as [|c cs IH]; intros s Hs; simpl; [done|].
  unfold bind. pose proof (run_call_well_filed c s Hs) as Hc.
  destruct (run_call c s) as [[[]|e] s1]; simpl in *; [by apply IH|done].
Qed.

(** X13: after [initialize] under the supported driver and any
    notifications, the drain of a port returns normally and hands out only
    associations of that port, each under its own local IP id. *)
Theorem drain_returns_own_records (connection : string)
    (ns : list notification) (port_id : string) (s : state) :
  ∃ r s',
    (initialize connection EXTENSION_DRIVER_TYPE >> deliver ns >>
     _pop_local_ip_updates_for_port port_id) s = (Ok r, s')
    ∧ ∀ l a, added r !! l = Some a ∨ deleted r !! l = Some a →
             fixed_port_id a = port_id ∧ local_ip_id a = l.
Proof.
  do 2 eexists. split.
  { unfold bind. rewrite initialize_spec.
    erewrite deliver_calls by reflexivity.
    erewrite pop_spec by reflexivity. reflexivity. }
  simpl. intros l a Hla.
  assert (well_filed (tables_after ns (seeded (server_associations s)
                                              empty_updates))) as [Ha Hd].
  { apply tables_after_well_filed, seeded_well_filed,
      empty_updates_well_filed. }
  destruct Hla as [Hl|Hl].
  - exact (well_filed_table_entries _ _ _ _ Ha Hl).
  - exact (well_filed_table_entries _ _ _ _ Hd Hl).
Qed.

(** ** The bulk pull on any tables *)

Lemma seeded_lookup_latest l u p lip :
  port_entries (added (seeded l u)) p !! lip
  = match latest_for p lip l with
    | Some a => Some a
    | None => port_entries (added u) p !! lip
    end.
Proof.
  unfold latest_for. induction l as [|x l IH] using rev_ind; [done|].
  rewrite seeded_snoc, seed_effect_eq, filter_app. simpl.
  rewrite filter_cons, filter_nil.
  destruct (decide (assoc_key x = (p, lip))) as [Hx|Hx].
  - rewrite last_snoc. injection Hx as <- <-.
    by rewrite port_entries_insert_eq, lookup_insert_eq.
  - rewrite app_nil_r, <- IH.
    destruct (decide (fixed_port_id x = p)) as [<-|Hp];
      [|by rewrite port_entries_insert_ne].
    rewrite port_entries_insert_eq, lookup_insert_ne; [done|].
    intros <-. by apply Hx.
Qed.

(** X14: on an object that has the pull API and its tables, whatever
    they hold, the bulk pull returns normally and merges the answer into
    [added]: under each (port, local IP) pair the entry is the last pulled
    association with that pair, or the earlier entry when none was pulled.
    The port keys of [added] grow by the pulled ports, [deleted] is not
    touched, and the pull itself is the only call made: no port update is
    published. *)
Theorem pull_all_merges_into_added (s : state) (rpc : ResourcesPullRpcApi)
    (u : updates port_table) :
  resource_rpc s = Some rpc →
  local_ip_updates s = Some u →
  ∃ s' u',
    _pull_all_local_ip_associations s = (Ok tt, s')
    ∧ local_ip_updates s' = Some u'
    ∧ (∀ p lip,
         port_entries (added u') p !! lip
         = match latest_for p lip (server_associations s) with
           | Some a => Some a
           | None => port_entries (added u) p !! lip
           end)
    ∧ dom (added u')
      = dom (added u) ∪ list_to_set (fixed_port_id <$> server_associations s)
    ∧ deleted u' = deleted u
    ∧ trace s'
      = trace s ++ [BulkPull AdminContextWithoutSession LOCAL_IP_ASSOCIATION].
Proof.
  intros Hrpc Hu. do 2 eexists.
  split; [by eapply pull_all_spec|]. split; [reflexivity|].
  split; [intros p lip; apply seeded_lookup_latest|].
  split; [apply seeded_dom|].
  split; [apply seeded_deleted|reflexivity].
Qed.

(** X15: the first drain of a port after [initialize] under the
    supported driver, whatever the object held before, returns as added, for
    each local IP, the last association the server listed for that port and
    local IP, and returns nothing as deleted. *)
Theorem first_drain_after_initialize (connection port_id : string)
    (s : state) :
  ∃ r s',
    (initialize connection EXTENSION_DRIVER_TYPE >>
     _pop_local_ip_updates_for_port port_id) s = (Ok r, s')
    ∧ (∀ lip, added r !! lip
              = latest_for port_id lip (server_associations s))
    ∧ deleted r = ∅.
Proof.
  do 2 eexists. split.
  { unfold bind. rewrite initialize_spec.
    erewrite pop_spec by reflexivity. reflexivity. }
  simpl. split.
  - intros lip. rewrite seeded_lookup_latest.
    destruct (latest_for port_id lip (server_associations s)); [done|].
    by rewrite port_entries_empty, lookup_empty.
  - rewrite seeded_deleted. apply port_entries_empty.
Qed.

(** X16: the bulk pull files the pulled associations exactly as one
    [CREATED] notification carrying the same list would, but publishes no
    port update: both leave the same tables. *)
Theorem pull_all_as_created_batch (context : RequestContext) (s : state)
    (rpc : ResourcesPullRpcApi) (u : updates port_table) :
  resource_rpc s = Some rpc →
  local_ip_updates s = Some u →
  ∃ s1 s2,
    _pull_all_local_ip_associations s = (Ok tt, s1)
    ∧ _handle_notification context LOCAL_IP_ASSOCIATION
        (server_associations s) CREATED s = (Ok tt, s2)
    ∧ local_ip_updates s1 = local_ip_updates s2
    ∧ (∀ e, e ∈ drop (length (trace s)) (trace s1) → is_publish e = false)
    ∧ length (filter (λ e, is_publish e = true)
                (drop (length (trace s)) (trace s2)))
      = length (server_associations s).
Proof.
  intros Hrpc Hu. do 2 eexists.
  split; [by eapply pull_all_spec|].
  split; [by apply handle_notification_spec|]. simpl.
  split; [|split].
  - f_equal. unfold seeded. apply foldl_pointwise. intros v a.
    rewrite record_effect_upsert by apply list_elem_of_here.
    apply seed_effect_eq.
  - rewrite drop_app_length. by intros e ->%list_elem_of_singleton.
  - rewrite drop_app_length. rewrite filter_cons_False by (simpl; done).
    induction (server_associations s) as [|a l IH]; [done|].
    rewrite fmap_cons, filter_cons_True by done. simpl. by rewrite IH.
Qed.

(** ** The consumer at startup *)


End Proofs.

(** ** The theorems at concrete inputs *)

Lemma initialize_wrong_driver_exits_witness :
  "linuxbridge" ≠ EXTENSION_DRIVER_TYPE (Constants := neutron_constants)
  ∧ (initialize (H := neutron_constants) "conn" "linuxbridge" fresh_state).1
    = Raise (SystemExit 1)
  ∧ local_ip_updates
      (initialize (H := neutron_constants) "conn" "linuxbridge" fresh_state).2
    = None.
Proof.
  assert ("linuxbridge" ≠ EXTENSION_DRIVER_TYPE (Constants := neutron_constants))
    as Hne by discriminate.
  split; [exact Hne|].
  destruct (initialize_wrong_driver_exits (H := neutron_constants)
              "conn" "linuxbridge" fresh_state Hne)
    as (s' & -> & _ & _ & Hu & _).
  split; [reflexivity|exact Hu].
Defined.

Lemma handle_notification_unsupported_type_witness :
  "Port" ≠ LOCAL_IP_ASSOCIATION (Constants := neutron_constants)
  ∧ (_handle_notification (H := neutron_constants) AdminContextWithoutSession
       "Port" [assoc_A1] "deleted" busy_state).1 = Ok tt
  ∧ local_ip_updates
      (_handle_notification (H := neutron_constants) AdminContextWithoutSession
         "Port" [assoc_A1] "deleted" busy_state).2
    = Some busy_updates.
Proof.
  assert ("Port" ≠ LOCAL_IP_ASSOCIATION (Constants := neutron_constants))
    as Hne by discriminate.
  split; [exact Hne|].
  destruct (handle_notification_unsupported_type (H := neutron_constants)
              AdminContextWithoutSession "Port" [assoc_A1] "deleted"
              busy_state Hne)
    as (s' & -> & _ & Hu & _).
  split; [reflexivity|exact Hu].
Defined.

Lemma handle_notification_unknown_event_witness :
  ("renamed" ∉ ["created"; "updated"])
  ∧ "renamed" ≠ "deleted"
  ∧ ∃ s',
      _handle_notification (H := neutron_constants) (Context_ "req-2")
        "LocalIPAssociation" [assoc_A1; assoc_B5] "renamed" busy_state
      = (Ok tt, s')
      ∧ local_ip_updates s' = Some busy_updates
      ∧ filter (λ e, is_publish e = true) (trace s')
        = [port_updated (H := neutron_constants) (Context_ "req-2") "A";
           port_updated (H := neutron_constants) (Context_ "req-2") "B"].
Proof.
  assert ("renamed" ∉ ["created"; "updated"]) as Hcu.
  { apply (bool_decide_unpack _). vm_compute. exact I. }
  assert ("renamed" ≠ "deleted") as Hd by discriminate.
  split; [exact Hcu|]. split; [exact Hd|].
  destruct (handle_notification_unknown_event (H := neutron_constants)
              (Context_ "req-2") [assoc_A1; assoc_B5] "renamed" busy_state
              Hcu Hd)
    as (s' & Hrun & Hu & Htr).
  exists s'. split; [exact Hrun|]. split; [exact Hu|].
  rewrite Htr. reflexivity.
Defined.

Lemma pop_local_ip_updates_for_port_drains_witness :
  local_ip_updates busy_state = Some busy_updates
  ∧ ∃ s',
      _pop_local_ip_updates_for_port "A" busy_state
      = (Ok {| added := {[ "1" := assoc_A1 ]};
               deleted := {[ "2" := assoc_A2 ]} |}, s')
      ∧ _pop_local_ip_updates_for_port "A" s'
        = (Ok {| added := ∅; deleted := ∅ |}, s').
Proof.
  split; [reflexivity|].
  destruct (pop_local_ip_updates_for_port_drains "A" busy_state busy_updates
              eq_refl)
    as (r & s' & u' & Hrun & Ha & Hd & _ & _ & _ & _ & _ & _ & _ & _ & Hagain).
  exists s'. split; [|exact Hagain].
  rewrite Hrun. destruct r as [ra rd]. simpl in Ha, Hd. rewrite Ha, Hd.
  reflexivity.
Defined.

Lemma pop_leaves_other_port_witness :
  "A" ≠ "B"
  ∧ local_ip_updates busy_state = Some busy_updates
  ∧ ∃ r s' u',
      _pop_local_ip_updates_for_port "A" busy_state = (Ok r, s')
      ∧ local_ip_updates s' = Some u'
      ∧ added u' !! "B" = Some {[ "5" := assoc_B5 ]}
      ∧ deleted u' !! "B" = None.
Proof.
  assert ("A" ≠ "B") as Hne by discriminate.
  split; [exact Hne|]. split; [reflexivity|].
  destruct (pop_leaves_other_port "A" "B" busy_state busy_updates Hne eq_refl)
    as (r & s' & u' & Hrun & Hu' & Ha & Hd & _).
  exists r, s', u'. split; [exact Hrun|]. split; [exact Hu'|].
  split; [rewrite Ha|rewrite Hd]; reflexivity.
Defined.

Lemma delete_port_discards_witness :
  port_B !! "port_id" = Some "B"
  ∧ local_ip_updates empty_state = Some empty_updates
  ∧ ∃ s1 s2,
      deliver (H := neutron_constants) [created_B5] empty_state = (Ok tt, s1)
      ∧ delete_port AdminContextWithoutSession port_B s1 = (Ok tt, s2)
      ∧ _pop_local_ip_updates_for_port "B" s2
        = (Ok {| added := ∅; deleted := ∅ |}, s2).
Proof.
  assert (port_B !! "port_id" = Some "B") as Hp by reflexivity.
  split; [exact Hp|]. split; [reflexivity|].
  destruct (delete_port_discards (H := neutron_constants) [created_B5]
              AdminContextWithoutSession port_B "B" empty_state empty_updates
              Hp eq_refl)
    as (s1 & s2 & u2 & Hrun & Hdel & _ & _ & _ & _ & Hpop).
  exists s1, s2. split; [exact Hrun|]. split; [exact Hdel|exact Hpop].
Defined.

Lemma deleted_record_marks_and_evicts_witness :
  ("deleted" ∉ ["created"; "updated"])
  ∧ local_ip_updates empty_state = Some empty_updates
  ∧ ∃ s' u',
      _handle_notification (H := neutron_constants) AdminContextWithoutSession
        "LocalIPAssociation" [assoc_A2] "deleted" empty_state = (Ok tt, s')
      ∧ local_ip_updates s' = Some u'
      ∧ deleted u' = {[ "A" := {[ "2" := assoc_A2 ]} ]}
      ∧ added u' = {[ "A" := ∅ ]}.
Proof.
  assert ("deleted" ∉ ["created"; "updated"]) as Hk.
  { apply (bool_decide_unpack _). vm_compute. exact I. }
  split; [exact Hk|]. split; [reflexivity|].
  destruct (deleted_record_marks_and_evicts (H := neutron_constants)
              AdminContextWithoutSession assoc_A2 empty_state empty_updates
              Hk eq_refl)
    as (s' & u' & Hrun & Hu' & Hd & Ha & _).
  exists s', u'. split; [exact Hrun|]. split; [exact Hu'|].
  split; [rewrite Hd|rewrite Ha]; reflexivity.
Defined.

Lemma pair_events_latest_wins_witness :
  ("deleted" ∉ ["created"; "updated"])
  ∧ Forall (pair_event (H := neutron_constants) "A" "1") create_delete_update
  ∧ last create_delete_update = Some ("updated", assoc_A1)
  ∧ local_ip_updates empty_state = Some empty_updates
  ∧ ∃ s' u',
      deliver (H := neutron_constants)
        (event_notification (H := neutron_constants) AdminContextWithoutSession
           <$> create_delete_update) empty_state = (Ok tt, s')
      ∧ local_ip_updates s' = Some u'
      ∧ in_added u' "A" "1"
      ∧ in_deleted u' "A" "1".
Proof.
  assert ("deleted" ∉ ["created"; "updated"]) as Hk.
  { apply (bool_decide_unpack _). vm_compute. exact I. }
  assert (Forall (pair_event (H := neutron_constants) "A" "1")
            create_delete_update) as Hevs.
  { repeat constructor;
      apply (bool_decide_unpack _); vm_compute; exact I. }
  split; [exact Hk|]. split; [exact Hevs|].
  split; [reflexivity|]. split; [reflexivity|].
  destruct (pair_events_latest_wins (H := neutron_constants) "A" "1" Hk
              AdminContextWithoutSession create_delete_update
              ("updated", assoc_A1) empty_state empty_updates
              Hevs eq_refl eq_refl)
    as (s' & u' & Hrun & Hu' & Ha & Hd & _).
  exists s', u'. split; [exact Hrun|]. split; [exact Hu'|]. split.
  - apply Ha. apply (bool_decide_unpack _). vm_compute. exact I.
  - apply Hd. right. apply (bool_decide_unpack _). vm_compute. exact I.
Defined.

Lemma pull_all_seeds_added_witness :
  resource_rpc empty_state = Some ResourcesPullRpcApi_new
  ∧ local_ip_updates empty_state = Some empty_updates
  ∧ NoDup (assoc_key <$> server_associations empty_state)
  ∧ ∃ s' u',
      _pull_all_local_ip_associations (H := neutron_constants) empty_state
      = (Ok tt, s')
      ∧ local_ip_updates s' = Some u'
      ∧ size (added u') = 2
      ∧ deleted u' = ∅.
Proof.
  assert (NoDup (assoc_key <$> server_associations empty_state)) as Hnd.
  { apply (bool_decide_unpack _). vm_compute. exact I. }
  split; [reflexivity|]. split; [reflexivity|]. split; [exact Hnd|].
  destruct (pull_all_seeds_added (H := neutron_constants) empty_state
              ResourcesPullRpcApi_new eq_refl eq_refl Hnd)
    as (s' & u' & Hrun & Hu' & _ & Hsize & _ & Hdel & _).
  exists s', u'. split; [exact Hrun|]. split; [exact Hu'|].
  split; [rewrite Hsize; reflexivity|exact Hdel].
Defined.

(** ** Both sides pending, and the order of the calls at startup *)

(** C1: the handler breaks the exclusive reading. After [DELETED] then
    [CREATED] for the pair (["A"], ["1"]) on empty tables the id is pending on
    both sides, and it is pending as deleted although the last event is
    [CREATED]: the upsert branch (line 98) does not evict the id from
    [deleted], where the [DELETED] branch (line 101) evicts it from
    [added]. *)
Lemma exclusive_latest_wins_fails :
  ¬ exclusive_latest_wins (H := neutron_constants) AdminContextWithoutSession
      "A" "1" delete_then_create empty_state.
Proof.
  intros Hclaim.
  destruct (Hclaim _ _ _ eq_refl eq_refl eq_refl) as [Hboth _].
  apply Hboth. split; vm_compute; eauto.
Qed.

(** In the calls [initialize] makes on a new object the consumer
    registration is the first one; no bulk pull comes before it. *)
Lemma initialize_seed_before_subscribe_fails :
  ¬ seed_before_subscribe
      (trace (initialize (H := neutron_constants) "conn" "ovs" fresh_state).2).
Proof.
  intros Hclaim.
  destruct (Hclaim 0 (RegistryRegister "LocalIPAssociation") eq_refl eq_refl)
    as (j & e' & Hj & _).
  lia.
Qed.

(** ** Scenarios *)

(** Seed with association 1 of port A, then [CREATED] association 2 of port
    A, then [DELETED] association 1: the drain of A returns 2 as added and 1
    as deleted. *)
Example seed_create_delete_drain :
  ((initialize (H := neutron_constants) "conn" "ovs" >>
    _handle_notification (H := neutron_constants) AdminContextWithoutSession
      "LocalIPAssociation" [assoc_A2] "created" >>
    _handle_notification (H := neutron_constants) AdminContextWithoutSession
      "LocalIPAssociation" [assoc_A1] "deleted" >>
    _pop_local_ip_updates_for_port "A") single_state).1
  = Ok {| added := {[ "2" := assoc_A2 ]}; deleted := {[ "1" := assoc_A1 ]} |}.
Proof. reflexivity. Qed.

(** [CREATED] for port B, then the port is removed: the drain of B returns
    nothing. *)
Example create_remove_drain :
  ((initialize (H := neutron_constants) "conn" "ovs" >>
    deliver (H := neutron_constants) [created_B5] >>
    delete_port AdminContextWithoutSession port_B >>
    _pop_local_ip_updates_for_port "B") single_state).1
  = Ok {| added := ∅; deleted := ∅ |}.
Proof. reflexivity. Qed.

(** The handler run on the created, not yet seeded tables: the bulk pull
    that follows files association 1 as added again, next to its deleted
    entry; run after the pull, the same notification leaves it deleted
    only. *)
Example delete_before_seed_is_overridden :
  ((_handle_notification (H := neutron_constants) AdminContextWithoutSession
      "LocalIPAssociation" [assoc_A1] "deleted" >>
    _pull_all_local_ip_associations (H := neutron_constants) >>
    _pop_local_ip_updates_for_port "A") empty_state).1
  = Ok {| added := {[ "1" := assoc_A1; "2" := assoc_A2 ]};
          deleted := {[ "1" := assoc_A1 ]} |}
  ∧ ((_pull_all_local_ip_associations (H := neutron_constants) >>
      _handle_notification (H := neutron_constants) AdminContextWithoutSession
        "LocalIPAssociation" [assoc_A1] "deleted" >>
      _pop_local_ip_updates_for_port "A") empty_state).1
    = Ok {| added := {[ "2" := assoc_A2 ]};
            deleted := {[ "1" := assoc_A1 ]} |}.
Proof. split; reflexivity. Qed.

(** The handler run on an object whose tables do not exist yet (after the
    registration, before line 48) raises. *)
Example notification_before_store_raises :
  (_handle_notification (H := neutron_constants) AdminContextWithoutSession
     "LocalIPAssociation" [assoc_A1] "created" fresh_state).1
  = Raise (AttributeError "local_ip_updates").
Proof. reflexivity. Qed.

(** ** The further theorems at concrete inputs *)

Lemma upsert_record_files_added_witness :
  "updated" ∈ ["created"; "updated"]
  ∧ local_ip_updates busy_state = Some busy_updates
  ∧ ∃ s' u',
      _handle_notification (H := neutron_constants) AdminContextWithoutSession
        "LocalIPAssociation" [assoc_A2] "updated" busy_state = (Ok tt, s')
      ∧ local_ip_updates s' = Some u'
      ∧ port_entries (added u') "A" !! "2" = Some assoc_A2
      ∧ deleted u' = deleted busy_updates.
Proof.
  assert ("updated" ∈ ["created"; "updated"]) as Hk.
  { apply (bool_decide_unpack _). vm_compute. exact I. }
  split; [exact Hk|]. split; [reflexivity|].
  destruct (upsert_record_files_added (H := neutron_constants)
              AdminContextWithoutSession "updated" assoc_A2 busy_state
              busy_updates Hk eq_refl)
    as (s' & u' & Hrun & Hu' & Ha & _ & _ & Hd & _).
  exists s', u'. split; [exact Hrun|]. split; [exact Hu'|].
  split; [exact Ha|exact Hd].
Defined.

Lemma handle_notification_publishes_per_record_witness :
  local_ip_updates busy_state = Some busy_updates
  ∧ ∃ s',
      _handle_notification (H := neutron_constants) (Context_ "req-5")
        "LocalIPAssociation" [assoc_A1; assoc_A2] "deleted" busy_state
      = (Ok tt, s')
      ∧ trace s'
        = [LogInfo [assoc_A1; assoc_A2] "deleted";
           port_updated (H := neutron_constants) (Context_ "req-5") "A";
           port_updated (H := neutron_constants) (Context_ "req-5") "A"].
Proof.
  split; [reflexivity|].
  destruct (handle_notification_publishes_per_record (H := neutron_constants)
              (Context_ "req-5") [assoc_A1; assoc_A2] "deleted" busy_state
              busy_updates eq_refl)
    as (s' & Hrun & Htr & _).
  exists s'. split; [exact Hrun|exact Htr].
Defined.

Lemma handle_notification_without_store_raises_witness :
  local_ip_updates fresh_state = None
  ∧ "deleted" ∈ ["created"; "updated"; "deleted"]
  ∧ (_handle_notification (H := neutron_constants) AdminContextWithoutSession
       "LocalIPAssociation" [assoc_A1; assoc_B5] "deleted" fresh_state).1
    = Raise (AttributeError "local_ip_updates").
Proof.
  assert ("deleted" ∈ ["created"; "updated"; "deleted"]) as Hk.
  { apply (bool_decide_unpack _). vm_compute. exact I. }
  split; [reflexivity|]. split; [exact Hk|].
  pose proof (handle_notification_without_store_raises
                (H := neutron_constants) AdminContextWithoutSession assoc_A1
                [assoc_B5] "deleted" fresh_state eq_refl Hk) as Hrun.
  exact (f_equal fst Hrun).
Defined.

Lemma delete_port_without_port_id_witness :
  port_nameless !! "port_id" = None
  ∧ local_ip_updates busy_state = Some busy_updates
  ∧ delete_port AdminContextWithoutSession port_nameless busy_state
    = (Raise (KeyError "port_id"), busy_state).
Proof.
  split; [reflexivity|]. split; [reflexivity|].
  exact (delete_port_without_port_id AdminContextWithoutSession port_nameless
           busy_state busy_updates eq_refl eq_refl).
Defined.

Lemma drain_and_discard_without_store_raise_witness :
  local_ip_updates fresh_state = None
  ∧ _pop_local_ip_updates_for_port "A" fresh_state
    = (Raise (AttributeError "local_ip_updates"), fresh_state)
  ∧ delete_port AdminContextWithoutSession port_nameless fresh_state
    = (Raise (AttributeError "local_ip_updates"), fresh_state).
Proof.
  split; [reflexivity|].
  exact (drain_and_discard_without_store_raise AdminContextWithoutSession
           port_nameless "A" fresh_state eq_refl).
Defined.

Lemma delete_port_leaves_other_ports_witness :
  port_B !! "port_id" = Some "B"
  ∧ local_ip_updates busy_state = Some busy_updates
  ∧ ∃ s' u',
      delete_port AdminContextWithoutSession port_B busy_state = (Ok tt, s')
      ∧ local_ip_updates s' = Some u'
      ∧ added u' !! "A" = Some {[ "1" := assoc_A1 ]}
      ∧ deleted u' !! "A" = Some {[ "2" := assoc_A2 ]}.
Proof.
  assert ("A" ≠ "B") as Hne by discriminate.
  split; [reflexivity|]. split; [reflexivity|].
  destruct (delete_port_leaves_other_ports AdminContextWithoutSession port_B
              "B" busy_state busy_updates eq_refl eq_refl)
    as (s' & u' & Hrun & Hu' & Hframe & _).
  exists s', u'. split; [exact Hrun|]. split; [exact Hu'|].
  destruct (Hframe "A" Hne) as [Ha Hd].
  split; [rewrite Ha|rewrite Hd]; reflexivity.
Defined.

Lemma deliver_leaves_unnamed_ports_witness :
  (∀ n, n ∈ [created_B5] → "A" ∉ notification_ports n)
  ∧ local_ip_updates busy_state = Some busy_updates
  ∧ ∃ s' u',
      deliver (H := neutron_constants) [created_B5] busy_state = (Ok tt, s')
      ∧ local_ip_updates s' = Some u'
      ∧ added u' !! "A" = Some {[ "1" := assoc_A1 ]}
      ∧ deleted u' !! "A" = Some {[ "2" := assoc_A2 ]}.
Proof.
  assert (∀ n, n ∈ [created_B5] → "A" ∉ notification_ports n) as Hq.
  { intros n Hn. apply list_elem_of_singleton in Hn. subst n.
    apply (bool_decide_unpack _). vm_compute. exact I. }
  split; [exact Hq|]. split; [reflexivity|].
  destruct (deliver_leaves_unnamed_ports (H := neutron_constants)
              [created_B5] "A" busy_state busy_updates Hq eq_refl)
    as (s' & u' & Hrun & Hu' & Ha & Hd).
  exists s', u'. split; [exact Hrun|]. split; [exact Hu'|].
  split; [rewrite Ha|rewrite Hd]; reflexivity.
Defined.

Lemma deliver_never_clears_witness :
  local_ip_updates busy_state = Some busy_updates
  ∧ ∃ s' u',
      deliver (H := neutron_constants)
        (event_notification (H := neutron_constants) AdminContextWithoutSession
           <$> [("created", assoc_A2)]) busy_state = (Ok tt, s')
      ∧ local_ip_updates s' = Some u'
      ∧ in_deleted u' "A" "2".
Proof.
  split; [reflexivity|].
  destruct (deliver_never_clears (H := neutron_constants)
              (event_notification (H := neutron_constants)
                 AdminContextWithoutSession <$> [("created", assoc_A2)])
              busy_state busy_updates eq_refl)
    as (s' & u' & Hrun & Hu' & _ & _ & Hd).
  exists s', u'. split; [exact Hrun|]. split; [exact Hu'|].
  apply Hd. exists assoc_A2. reflexivity.
Defined.

Lemma deliver_ignores_unhandled_witness :
  local_ip_updates busy_state = Some busy_updates
  ∧ filter (handled (H := neutron_constants))
      [port_deleted; created_B5; renamed_A1] = [created_B5]
  ∧ ∃ s1 s2,
      deliver (H := neutron_constants) [port_deleted; created_B5; renamed_A1]
        busy_state = (Ok tt, s1)
      ∧ deliver (H := neutron_constants) [created_B5] busy_state = (Ok tt, s2)
      ∧ local_ip_updates s1 = local_ip_updates s2.
Proof.
  split; [reflexivity|]. split; [reflexivity|].
  destruct (deliver_ignores_unhandled (H := neutron_constants)
              [port_deleted; created_B5; renamed_A1] busy_state busy_updates
              eq_refl)
    as (s1 & s2 & Hrun1 & Hrun2 & Heq).
  exists s1, s2. split; [exact Hrun1|]. split; [exact Hrun2|exact Heq].
Defined.

Lemma drain_commutes_with_other_ports_witness :
  (∀ n, n ∈ [created_B5] → "A" ∉ notification_ports n)
  ∧ local_ip_updates busy_state = Some busy_updates
  ∧ (deliver (H := neutron_constants) [created_B5] >>
     _pop_local_ip_updates_for_port "A") busy_state
    = (let* r := _pop_local_ip_updates_for_port "A" in
       deliver (H := neutron_constants) [created_B5] >> ret r) busy_state.
Proof.
  assert (∀ n, n ∈ [created_B5] → "A" ∉ notification_ports n) as Hq.
  { intros n Hn. apply list_elem_of_singleton in Hn. subst n.
    apply (bool_decide_unpack _). vm_compute. exact I. }
  split; [exact Hq|]. split; [reflexivity|].
  exact (drain_commutes_with_other_ports (H := neutron_constants) "A"
           [created_B5] busy_state busy_updates Hq eq_refl).
Defined.

Lemma batch_split_witness :
  local_ip_updates empty_state = Some empty_updates
  ∧ ∃ s1 s2,
      _handle_notification (H := neutron_constants) AdminContextWithoutSession
        "LocalIPAssociation" ([assoc_A1] ++ [assoc_B5]) "created" empty_state
      = (Ok tt, s1)
      ∧ (_handle_notification (H := neutron_constants)
           AdminContextWithoutSession "LocalIPAssociation" [assoc_A1]
           "created" >>
         _handle_notification (H := neutron_constants)
           AdminContextWithoutSession "LocalIPAssociation" [assoc_B5]
           "created") empty_state
        = (Ok tt, s2)
      ∧ local_ip_updates s1 = local_ip_updates s2.
Proof.
  split; [reflexivity|].
  destruct (batch_split (H := neutron_constants) AdminContextWithoutSession
              [assoc_A1] [assoc_B5] "created" empty_state empty_updates
              eq_refl)
    as (s1 & s2 & Hrun1 & Hrun2 & Heq & _).
  exists s1, s2. split; [exact Hrun1|]. split; [exact Hrun2|exact Heq].
Defined.

Lemma calls_keep_tables_well_filed_witness :
  tables_well_filed fresh_state
  ∧ is_Some (local_ip_updates
               (run_calls (H := neutron_constants) sample_calls fresh_state).2)
  ∧ tables_well_filed
      (run_calls (H := neutron_constants) sample_calls fresh_state).2.
Proof.
  assert (tables_well_filed fresh_state) as Hs.
  { intros u Hu. discriminate Hu. }
  split; [exact Hs|]. split; [eexists; reflexivity|].
  exact (calls_keep_tables_well_filed (H := neutron_constants) sample_calls
           fresh_state Hs).
Defined.

Lemma pull_all_merges_into_added_witness :
  resource_rpc empty_state = Some ResourcesPullRpcApi_new
  ∧ local_ip_updates empty_state = Some empty_updates
  ∧ ∃ s' u',
      _pull_all_local_ip_associations (H := neutron_constants) empty_state
      = (Ok tt, s')
      ∧ local_ip_updates s' = Some u'
      ∧ port_entries (added u') "A" !! "2" = Some assoc_A2
      ∧ port_entries (added u') "B" !! "2" = None.
Proof.
  split; [reflexivity|]. split; [reflexivity|].
  destruct (pull_all_merges_into_added (H := neutron_constants) empty_state
              ResourcesPullRpcApi_new empty_updates eq_refl eq_refl)
    as (s' & u' & Hrun & Hu' & Hlook & _).
  exists s', u'. split; [exact Hrun|]. split; [exact Hu'|].
  split; rewrite Hlook; reflexivity.
Defined.

Lemma pull_all_as_created_batch_witness :
  resource_rpc empty_state = Some ResourcesPullRpcApi_new
  ∧ local_ip_updates empty_state = Some empty_updates
  ∧ ∃ s1 s2,
      _pull_all_local_ip_associations (H := neutron_constants) empty_state
      = (Ok tt, s1)
      ∧ _handle_notification (H := neutron_constants) (Context_ "req-6")
          "LocalIPAssociation" [assoc_A1; assoc_A2; assoc_B5] "created"
          empty_state = (Ok tt, s2)
      ∧ local_ip_updates s1 = local_ip_updates s2.
Proof.
  split; [reflexivity|]. split; [reflexivity|].
  destruct (pull_all_as_created_batch (H := neutron_constants)
              (Context_ "req-6") empty_state ResourcesPullRpcApi_new
              empty_updates eq_refl eq_refl)
    as (s1 & s2 & Hrun1 & Hrun2 & Heq & _).
  exists s1, s2. split; [exact Hrun1|]. split; [exact Hrun2|exact Heq].
Defined.
